(** * The file-system content source: field conversion and update operations

    A shallow embedding of [src/content-source.ts]: the forward converter
    ([convertFields], [convertFieldType], [convertDocument]), the reverse
    mapper ([mapUpdateOperationToValue]), the update loop of
    [updateDocument] and the listings, followed by the properties the
    specification states about them.

    Conventions of the embedding.
    - Raw records are the values a parsed YAML/JSON/front-matter file
      holds: plain objects and arrays of own, enumerable data properties.
      An object is the list of its own entries in enumeration order; a key
      written anew comes last, also where JavaScript enumerates an
      integer-like key earlier, and no statement depends on that position.
    - A raw value is a tree: no object or array in it is reached by two
      paths, and the operations of one update share no value with each
      other.  The program mutates records in place, so what it does to a
      record with sharing is not what it does to the tree of its values.
    - The outcome [Unmodelled] marks the steps that leave what the
      embedding represents: a read that finds a member inherited from a
      built-in prototype (a function, not a raw value); a write of a named
      property of an array; the printing of a number beyond the safe
      integers; and a [reorder] that puts one object at two indices, which
      makes a record with sharing.  No property is stated of a run with
      that outcome.
    - A number is an integer or [NaN]; a string is a sequence of 8-bit
      characters; a hole of an array is the element [undefined].
    - A key of a path is a string: the number [n] of a [fieldPath] is its
      decimal numeral, which is how lodash ([toKey]) and JavaScript read it.
    - A thrown exception is the [Throw] outcome of the [result] monad.  The
      semantics is that of ECMAScript: a [const] is in its temporal dead
      zone until its declaration runs.
    - The converter recurses through the registry, so its recursion is
      bounded by a call-depth budget ([fuel]); running out of it is the
      separate outcome [OutOfFuel].
    - Node's [path] and [fs-extra] and the [utils] of [@stackbit/cms-core]
      are collaborators of the program: they are the fields of the classes
      [Host] and [Directory]. *)

From Stdlib Require Import Ascii DecimalString.
From stdpp Require Import gmap strings list.

Set Warnings "-register-all".

Local Open Scope string_scope.
Local Open Scope list_scope.
Local Open Scope nat_scope.

(** ** Raw values *)

(** JavaScript numbers, as far as the program observes them: it never
    computes with a number of a record, it only tests its truthiness and
    prints it as a property key. *)
Inductive number :=
| NaN
| Num (z : Z).

Inductive raw :=
| RUndefined
| RNull
| RBool (b : bool)
| RNumber (n : number)
| RString (s : string)
| RArray (items : list raw)
| RObject (entries : list (string * raw)).

(** ** Outcomes *)

Inductive JsError :=
| TypeError
| RangeError
| ReferenceError (binding : string)
| UnsupportedType (tag : option string)   (* new Error('Unsupported type: ' + tag) *)
| HostError (message : string).           (* an exception of a collaborator *)

Inductive result (A : Type) :=
| Ok (a : A)
| Throw (e : JsError)
| OutOfFuel
| Unmodelled.

Arguments Ok {A} a.
Arguments Throw {A} e.
Arguments OutOfFuel {A}.
Arguments Unmodelled {A}.

#[global] Instance result_ret : MRet result := fun A a => Ok a.
#[global] Instance result_bind : MBind result := fun A B f m =>
  match m with
  | Ok a => f a
  | Throw e => Throw e
  | OutOfFuel => OutOfFuel
  | Unmodelled => Unmodelled
  end.

(** [for (const x of xs) { s = body(s, x) }]: the loop stops at the first
    exception. *)
Fixpoint for_of {A S : Type} (body : S -> A -> result S) (xs : list A) (s : S) : result S :=
  match xs with
  | [] => Ok s
  | x :: rest => s' ← body s x; for_of body rest s'
  end.

(** ** Property keys *)

Definition string_of_N (n : N) : string := NilZero.string_of_uint (N.to_uint n).

Definition index_key (i : nat) : string := string_of_N (N.of_nat i).

(** The canonical decimal numerals: [0], or digits that do not start with
    [0] (lodash [reIsUint]). *)
Definition parse_uint (s : string) : option N :=
  match NilZero.uint_of_string s with
  | Some d => let n := N.of_uint d in
              if String.eqb (string_of_N n) s then Some n else None
  | None => None
  end.

(** An array index is a canonical numeral below [2^32 - 1]. *)
Definition array_index (key : string) : option nat :=
  match parse_uint key with
  | Some n => if (n <? 4294967295)%N then Some (N.to_nat n) else None
  | None => None
  end.

(** lodash [isIndex(value)] with its default bound [MAX_SAFE_INTEGER]. *)
Definition isIndex (key : string) : bool :=
  match parse_uint key with
  | Some n => (n <? 9007199254740991)%N
  | None => false
  end.

Definition string_of_Z (z : Z) : string := NilZero.string_of_int (Z.to_int z).

Definition chars (s : string) : list raw :=
  (fun c => RString (String c "")) <$> String.list_ascii_of_string s.

(** ** Objects as entry lists *)

Fixpoint obj_get {V : Type} (o : list (string * V)) (k : string) : option V :=
  match o with
  | [] => None
  | (k', v) :: rest => if String.eqb k' k then Some v else obj_get rest k
  end.

(** [o[k] = v]: an existing key keeps its place, a new one comes last. *)
Fixpoint obj_set {V : Type} (o : list (string * V)) (k : string) (v : V) : list (string * V) :=
  match o with
  | [] => [(k, v)]
  | (k', v') :: rest =>
      if String.eqb k' k then (k, v) :: rest else (k', v') :: obj_set rest k v
  end.

Fixpoint obj_delete {V : Type} (o : list (string * V)) (k : string) : list (string * V) :=
  match o with
  | [] => []
  | (k', v') :: rest =>
      if String.eqb k' k then rest else (k', v') :: obj_delete rest k
  end.

(** The integers a JavaScript number holds exactly, [Number.isSafeInteger]:
    these print as their decimal numeral. *)
Definition safe_integer (z : Z) : bool := (Z.abs z <=? 9007199254740991)%Z.

(** [ToPropertyKey]: how a value used as a key ([modelMap[type]]) is printed.
    An array is joined; an object prints through the [toString] it
    inherits, and throws when an own entry, which is never a function,
    hides it. *)
Fixpoint toPropertyKey (v : raw) : result string :=
  match v with
  | RUndefined => Ok "undefined"
  | RNull => Ok "null"
  | RBool true => Ok "true"
  | RBool false => Ok "false"
  | RNumber NaN => Ok "NaN"
  | RNumber (Num z) => if safe_integer z then Ok (string_of_Z z) else Unmodelled
  | RString s => Ok s
  | RArray items =>
      parts ← mapM (fun x => match x with
                             | RUndefined | RNull => Ok ""
                             | _ => toPropertyKey x
                             end) items;
      Ok (String.concat "," parts)
  | RObject entries =>
      match obj_get entries "toString" with
      | Some _ => Throw TypeError
      | None => Ok "[object Object]"
      end
  end.

(** ** The JavaScript operations the program applies to raw values *)

(** [!v] is [negb (truthy v)]. *)
Definition truthy (v : raw) : bool :=
  match v with
  | RUndefined | RNull => false
  | RBool b => b
  | RNumber NaN => false
  | RNumber (Num z) => negb (z =? 0)%Z
  | RString s => negb (String.eqb s "")
  | RArray _ | RObject _ => true
  end.

Definition nullish (v : raw) : bool :=
  match v with
  | RUndefined | RNull => true
  | _ => false
  end.

(** lodash [isObject]. *)
Definition isObject (v : raw) : bool :=
  match v with
  | RArray _ | RObject _ => true
  | _ => false
  end.

(** [Object.entries(v)]. *)
Definition Object_entries (v : raw) : result (list (string * raw)) :=
  match v with
  | RUndefined | RNull => Throw TypeError
  | RBool _ | RNumber _ => Ok []
  | RString s => Ok (imap (fun i c => (index_key i, c)) (chars s))
  | RArray items => Ok (imap (fun i x => (index_key i, x)) items)
  | RObject entries => Ok entries
  end.

(** [for (const item of v)] and [[...v]]: the items of an iterable. *)
Definition iterate (v : raw) : result (list raw) :=
  match v with
  | RArray items => Ok items
  | RString s => Ok (chars s)
  | _ => Throw TypeError
  end.

(** The own property [key] of [v], if it has one. *)
Definition own_property (v : raw) (key : string) : option raw :=
  match v with
  | RObject entries => obj_get entries key
  | RArray items =>
      match array_index key with
      | Some i => items !! i
      | None => if String.eqb key "length"
                then Some (RNumber (Num (Z.of_nat (length items))))
                else None
      end
  | RString s =>
      match array_index key with
      | Some i => chars s !! i
      | None => if String.eqb key "length"
                then Some (RNumber (Num (Z.of_nat (String.length s))))
                else None
      end
  | _ => None
  end.

(** The functions every plain object inherits from [Object.prototype], by
    the key they are found under.  Each has that key as its [name], but
    [constructor], which is the function [Object]. *)
Definition Object_prototype_functions : list string :=
  ["constructor"; "hasOwnProperty"; "isPrototypeOf"; "propertyIsEnumerable";
   "toLocaleString"; "toString"; "valueOf"; "__defineGetter__";
   "__defineSetter__"; "__lookupGetter__"; "__lookupSetter__"].

(** The keys under which a plain object without the own property finds an
    inherited member; [__proto__] gives the prototype itself. *)
Definition Object_prototype_names : list string :=
  "__proto__" :: Object_prototype_functions.

(** A read of [key] on [v], which has no such own property, may find a
    member of a built-in prototype.  For a plain object these are the
    members of [Object.prototype].  The prototypes of arrays, strings,
    numbers and booleans have many members, which differ between versions
    of the runtime: there every name counts, and only an index of an array
    or of a string is known to be absent. *)
Definition inherits (v : raw) (key : string) : bool :=
  match v with
  | RObject _ => bool_decide (key ∈ Object_prototype_names)
  | RArray _ | RString _ => negb (bool_decide (is_Some (array_index key)))
  | _ => true
  end.

(** [v[key]]: the own property, or [undefined]; a member of a prototype is
    a function or a built-in object, not a raw value. *)
Definition property_get (v : raw) (key : string) : result raw :=
  if nullish v then Throw TypeError
  else match own_property v key with
       | Some value => Ok value
       | None => if inherits v key then Unmodelled else Ok RUndefined
       end.

(** [const { id, type, ...fields } = v]: the value of [type] and the rest.
    No built-in prototype has a member [type] or [id]. *)
Definition destructure (v : raw) : result (raw * raw) :=
  if nullish v then Throw TypeError
  else
    entries ← Object_entries v;
    Ok (default RUndefined (own_property v "type"),
        RObject (List.filter (fun kv => negb (String.eqb kv.1 "id" || String.eqb kv.1 "type"))
                             entries)).

(** ** lodash paths

    [_.get], [_.set] and [_.unset] of lodash 4.17.21.  A path given as an
    array ([fieldPath]) is a list of keys, a number being its decimal
    numeral ([toKey]); a path given as a string (a field name) is cast by
    [castPath]. *)

Definition quote_char (c : ascii) : bool :=
  Ascii.eqb c (ascii_of_nat 34) || Ascii.eqb c (ascii_of_nat 39).

Definition bracket_char (c : ascii) : bool :=
  Ascii.eqb c "[" || Ascii.eqb c "]".

Definition line_terminator (c : ascii) : bool :=
  Ascii.eqb c (ascii_of_nat 10) || Ascii.eqb c (ascii_of_nat 13).

Definition word_char (c : ascii) : bool :=
  let n := nat_of_ascii c in
  ((48 <=? n) && (n <=? 57) || (65 <=? n) && (n <=? 90)
   || (97 <=? n) && (n <=? 122) || (n =? 95))%nat.

Definition digit_char (c : ascii) : bool :=
  let n := nat_of_ascii c in ((48 <=? n) && (n <=? 57))%nat.

(** [span p s]: the longest prefix of [s] whose characters satisfy [p], and
    what follows it. *)
Fixpoint span (p : ascii -> bool) (s : list ascii) : list ascii * list ascii :=
  match s with
  | [] => ([], [])
  | c :: rest =>
      if p c then let '(run, after) := span p rest in (c :: run, after)
      else ([], s)
  end.

(** After an opening quote [q]: the quoted text, up to the first quote that
    no backslash escapes, and what follows that quote. *)
Fixpoint quoted (q : ascii) (s : list ascii) : option (list ascii * list ascii) :=
  match s with
  | [] => None
  | c :: rest =>
      if Ascii.eqb c q then Some ([], rest)
      else if Ascii.eqb c "\" then
        match rest with
        | d :: rest' =>
            if line_terminator d then None
            else match quoted q rest' with
                 | Some (body, after) => Some (c :: d :: body, after)
                 | None => None
                 end
        | [] => None
        end
      else match quoted q rest with
           | Some (body, after) => Some (c :: body, after)
           | None => None
           end
  end.

(** [reIsPlainProp]: only word characters. *)
Definition isPlainProp (value : string) : bool :=
  forallb word_char (String.list_ascii_of_string value).

(** What may follow a [[] for [reIsDeepProp] to match: characters other
    than brackets and then []], or a quoted text and then []]. *)
Definition closes_bracket (s : list ascii) : bool :=
  match (span (fun c => negb (bracket_char c)) s).2 with
  | c :: _ => Ascii.eqb c "]"
  | [] => false
  end
  || match s with
     | q :: rest =>
         quote_char q &&
         match quoted q rest with
         | Some (_, c :: _) => Ascii.eqb c "]"
         | _ => false
         end
     | [] => false
     end.

Fixpoint deep_chars (s : list ascii) : bool :=
  match s with
  | [] => false
  | c :: rest =>
      Ascii.eqb c "." || (Ascii.eqb c "[" && closes_bracket rest) || deep_chars rest
  end.

(** [reIsDeepProp]: a dot, or a bracketed part. *)
Definition isDeepProp (value : string) : bool :=
  deep_chars (String.list_ascii_of_string value).

(** lodash [isKey(value, object)] for a string [value]; the program casts
    field names against a plain object only. *)
Definition isKey (value : string) (object : raw) : bool :=
  isPlainProp value || negb (isDeepProp value)
  || match object with
     | RObject entries => bool_decide (is_Some (obj_get entries value))
     | _ => false
     end.

(** The second alternative of [rePropName] after its [[]: a number and []]. *)
Definition bracket_number (s : list ascii) : option (list ascii * list ascii) :=
  let '(sign, s1) := match s with
                     | c :: r => if Ascii.eqb c "-" then ([c], r) else ([], s)
                     | [] => ([], s)
                     end in
  let '(ds, s2) := span digit_char s1 in
  match ds, s2 with
  | _ :: _, c :: r =>
      if Ascii.eqb c "]" then Some (sign ++ ds, r)
      else if Ascii.eqb c "." then
        match span digit_char r with
        | ((_ :: _) as fs, c' :: r') =>
            if Ascii.eqb c' "]" then Some (sign ++ ds ++ c :: fs, r') else None
        | _ => None
        end
      else None
  | _, _ => None
  end.

(** [subString.replace(reEscapeChar, '$1')]. *)
Fixpoint unescape (s : list ascii) : list ascii :=
  match s with
  | [] => []
  | c :: rest =>
      if Ascii.eqb c "\" then
        match rest with
        | d :: rest' => if Ascii.eqb d "\" then d :: unescape rest' else unescape rest
        | [] => []
        end
      else c :: unescape rest
  end.

(** The third alternative of [rePropName]: the empty key between two
    separators, seen by a lookahead. *)
Definition empty_key_ahead (s : list ascii) : bool :=
  let separator_then (k : list ascii -> bool) (s : list ascii) :=
    match s with
    | c :: rest =>
        if Ascii.eqb c "." then k rest
        else match rest with
             | d :: rest' => Ascii.eqb c "[" && Ascii.eqb d "]" && k rest'
             | [] => false
             end
    | [] => false
    end in
  separator_then (fun s' => match s' with
                            | [] => true
                            | _ => separator_then (fun _ => true) s'
                            end) s.

(** One attempt of [rePropName] at the head of [s]: the key it pushes and
    the number of characters it consumes. *)
Definition match_key (s : list ascii) : option (list ascii * nat) :=
  match s with
  | [] => None
  | c :: rest =>
      if negb (Ascii.eqb c "." || bracket_char c) then
        let run := (span (fun c => negb (Ascii.eqb c "." || bracket_char c)) s).1 in
        Some (run, length run)
      else
        let bracketed :=
          if Ascii.eqb c "[" then
            match bracket_number rest with
            | Some (num, after) => Some (num, length s - length after)
            | None =>
                match rest with
                | q :: rest' =>
                    if quote_char q then
                      match quoted q rest' with
                      | Some (body, d :: after) =>
                          if Ascii.eqb d "]"
                          then Some (unescape body, length s - length after)
                          else None
                      | _ => None
                      end
                    else None
                | [] => None
                end
            end
          else None in
        match bracketed with
        | Some m => Some m
        | None => if empty_key_ahead s then Some ([], 0) else None
        end
  end.

(** [string.replace(rePropName, ...)]: scan left to right; [skip] counts the
    characters the last match still covers. *)
Fixpoint scan_keys (s : list ascii) (skip : nat) : list string :=
  match s with
  | [] => []
  | _ :: rest =>
      match skip with
      | S k => scan_keys rest k
      | O =>
          match match_key s with
          | Some (key, consumed) =>
              String.string_of_list_ascii key :: scan_keys rest (pred consumed)
          | None => scan_keys rest 0
          end
      end
  end.

Definition stringToPath (value : string) : list string :=
  let s := String.list_ascii_of_string value in
  match s with
  | c :: _ => if Ascii.eqb c "." then [""] else []
  | [] => []
  end ++ scan_keys s 0.

Definition castPath (value : string) (object : raw) : list string :=
  if isKey value object then [value] else stringToPath value.

(** [_.get(object, path)] for an array path. *)
Fixpoint baseGet (object : raw) (path : list string) : result raw :=
  match path with
  | [] => Ok object
  | key :: rest =>
      if nullish object then Ok RUndefined
      else value ← property_get object key; baseGet value rest
  end.

Definition lodash_get (object : raw) (path : list string) : result raw :=
  match path with
  | [] => Ok RUndefined
  | _ => baseGet object path
  end.

(** [items[i] = value] on an array: writing past the end leaves holes, which
    read as [undefined]. *)
Definition array_set (items : list raw) (i : nat) (value : raw) : list raw :=
  if i <? length items then <[i := value]> items
  else items ++ replicate (i - length items) RUndefined ++ [value].

(** [items.length = value]: a number that is a length cuts the array or
    fills it up with holes, and one that is none throws a [RangeError].
    [null] and a boolean count as [0] and [1]; how a string or an object is
    read as a number is not followed. *)
Definition array_set_length (items : list raw) (value : raw) : result raw :=
  let resized (n : nat) :=
    RArray (take n items ++ replicate (n - length items) RUndefined) in
  match value with
  | RNumber (Num z) =>
      if (0 <=? z)%Z && (z <? 4294967296)%Z then Ok (resized (Z.to_nat z))
      else Throw RangeError
  | RNumber NaN | RUndefined => Throw RangeError
  | RNull | RBool false => Ok (resized 0)
  | RBool true => Ok (resized 1)
  | RString _ | RArray _ | RObject _ => Unmodelled
  end.

(** [assignValue(nested, key, value)]: [nested[key] = value], which lodash
    leaves out only where it changes nothing.  On an array a key that is
    not an index is [length] or names a property beside the elements,
    which a raw array does not hold.  A write to a primitive is lost. *)
Definition assignValue (nested : raw) (key : string) (value : raw) : result raw :=
  match nested with
  | RObject entries => Ok (RObject (obj_set entries key value))
  | RArray items =>
      match array_index key with
      | Some i => Ok (RArray (array_set items i value))
      | None => if String.eqb key "length" then array_set_length items value
                else Unmodelled
      end
  | _ => Ok nested
  end.

(** The keys [baseSet] refuses to write. *)
Definition refused_key (key : string) : bool :=
  String.eqb key "__proto__" || String.eqb key "constructor"
  || String.eqb key "prototype".

(** The loop of [baseSet].  At a refused key it returns, and what it has
    written before stays.  A missing or primitive value on the way is
    replaced by a new array, when the next key is an index, or else by a
    new object: [nested[key] = newValue] comes first, with its exception;
    then the loop goes on inside [newValue], and [nested] holds under
    [key] what [newValue] has become. *)
Fixpoint baseSet (nested : raw) (path : list string) (value : raw) : result raw :=
  match path with
  | [] => Ok nested
  | key :: rest =>
      if refused_key key then Ok nested
      else
        match rest with
        | [] => assignValue nested key value
        | next :: _ =>
            objValue ← property_get nested key;
            let newValue := if isObject objValue then objValue
                            else if isIndex next then RArray [] else RObject [] in
            _ ← assignValue nested key newValue;
            written ← baseSet newValue rest value;
            assignValue nested key written
        end
  end.

Definition lodash_set (object : raw) (path : list string) (value : raw) : result raw :=
  if isObject object then baseSet object path value else Ok object.

(** [delete object[key]]: deleting an element of an array leaves a hole;
    its [length] cannot be deleted, and it has no other named property. *)
Definition delete_property (object : raw) (key : string) : raw :=
  match object with
  | RObject entries => RObject (obj_delete entries key)
  | RArray items =>
      match array_index key with
      | Some i => RArray (<[i := RUndefined]> items)
      | None => RArray items
      end
  | _ => object
  end.

(** [object] with the value it holds under [key] replaced by what that
    value has become in place; only an object or an array holds a value
    that can change. *)
Definition with_entry (object : raw) (key : string) (changed : raw) : raw :=
  match object with
  | RObject entries => RObject (obj_set entries key changed)
  | RArray items =>
      match array_index key with
      | Some i => RArray (<[i := changed]> items)
      | None => object
      end
  | _ => object
  end.

(** [_.unset(object, path)]: [delete parent[last(path)]], the parent being
    found by [baseGet]; the last key of an empty path prints as
    [undefined]. *)
Fixpoint baseUnset (object : raw) (path : list string) : result raw :=
  match path with
  | [] => Ok (delete_property object "undefined")
  | key :: rest =>
      match rest with
      | [] => Ok (delete_property object key)
      | _ :: _ =>
          if nullish object then Ok object
          else
            parent ← property_get object key;
            if nullish parent then Ok object
            else
              changed ← baseUnset parent rest;
              Ok (with_entry object key changed)
      end
  end.

Definition lodash_unset (object : raw) (path : list string) : result raw :=
  if nullish object then Ok object else baseUnset object path.

(** [_.has(object, key)] for a key that is a plain name. *)
Definition lodash_has (object : raw) (key : string) : bool :=
  match object with
  | RObject entries => bool_decide (is_Some (obj_get entries key))
  | _ => false
  end.

(** [arr.splice(start, deleteCount, ...inserted)] on a copy: the array it
    leaves. *)
Definition splice (arr : list raw) (start : Z) (deleteCount : nat) (inserted : list raw)
  : list raw :=
  let len := Z.of_nat (length arr) in
  let from := Z.to_nat (if (start <? 0)%Z then Z.max (len + start) 0 else Z.min start len) in
  take from arr ++ inserted ++ drop (from + deleteCount) arr.

(** [arr[newIndex]] for a number. *)
Definition element_at (arr : list raw) (newIndex : Z) : raw :=
  if (newIndex <? 0)%Z then RUndefined
  else default RUndefined (arr !! Z.to_nat newIndex).

(** ** The schema ([@stackbit/types]) *)

(** The [items] of a list spec: one spec, or the specs of a polymorphic
    list. *)
Inductive ListItems (F : Type) :=
| ItemsOne (item : F)
| ItemsMany (specs : list F).

Arguments ItemsOne {F} item.
Arguments ItemsMany {F} specs.

(** A field spec ([Field | FieldSpecificProps]); a property a spec does not
    have is [None]. *)
Inductive Field := mkField {
  field_name : option string;
  field_type : option string;
  field_items : option (ListItems Field);
  field_fields : option (list Field);
  field_models : option (list string)
}.

Record Model := mkModel {
  model_name : string;
  model_fields : option (list Field)
}.

(** [ModelMap]: the registry, from a model's name to the model; the map
    holds the own entries of the plain object. *)
Abbreviation ModelMap := (gmap string Model).

(** What [modelMap[key]] finds: a model of the registry or, under a key the
    registry has no entry for, a member the plain object inherits from
    [Object.prototype]: a function, or under [__proto__] the prototype
    itself. *)
Inductive Registered :=
| OwnModel (model : Model)
| InheritedFunction (name : string)
| InheritedPrototype.

(** [model.name]; the prototype has none. *)
Definition member_name (member : Registered) : option string :=
  match member with
  | OwnModel model => Some (model_name model)
  | InheritedFunction name => Some name
  | InheritedPrototype => None
  end.

(** [model.fields]; a built-in member has none. *)
Definition member_fields (member : Registered) : option (list Field) :=
  match member with
  | OwnModel model => model_fields model
  | InheritedFunction _ | InheritedPrototype => None
  end.

(** [modelMap[key]] for a key that is a string. *)
Definition registered (modelMap : ModelMap) (key : string) : option Registered :=
  match modelMap !! key with
  | Some model => Some (OwnModel model)
  | None =>
      if String.eqb key "__proto__" then Some InheritedPrototype
      else if String.eqb key "constructor" then Some (InheritedFunction "Object")
      else if bool_decide (key ∈ Object_prototype_functions)
           then Some (InheritedFunction key)
           else None
  end.

(** [modelMap[type]] *)
Definition registry_get (modelMap : ModelMap) (type : raw) : result (option Registered) :=
  key ← toPropertyKey type;
  Ok (registered modelMap key).

(** The typed field tree.  [convertFieldType] builds it ([DocumentField]) and
    [mapUpdateOperationToValue] reads it ([UpdateOperationField]): both are
    objects tagged by [type], with [value], [items], [fields], [modelName]
    or [refId] beside it. *)
Inductive DocumentField :=
| DFValue (type : string) (value : raw)
| DFList (items : list DocumentField)
| DFObject (fields : list (string * DocumentField))
| DFModel (modelName : string) (fields : list (string * DocumentField))
| DFReference (refType : string) (refId : raw)
| DFImage (fields : list (string * DocumentField)).

Abbreviation UpdateOperationField := DocumentField.

Definition field_tag (f : DocumentField) : string :=
  match f with
  | DFValue type _ => type
  | DFList _ => "list"
  | DFObject _ => "object"
  | DFModel _ _ => "model"
  | DFReference _ _ => "reference"
  | DFImage _ => "image"
  end.

(** A [Document]; its properties carry the prefix [doc_].  A [modelName]
    is a string: the document of a member without [name] is not one. *)
Record Document := mkDocument {
  doc_type : string;
  doc_id : string;
  doc_modelName : string;
  doc_manageUrl : string;
  doc_status : string;
  doc_context : list (string * raw);
  doc_createdAt : string;
  doc_updatedAt : string;
  doc_fields : list (string * DocumentField)
}.

(** An [UpdateOperation], by [opType]; [fieldPath] is the array of keys
    ([(string | number)[]]).  The fields of the operations of one update
    are trees of their own. *)
Inductive UpdateOperation :=
| OpSet (field : UpdateOperationField) (fieldPath : list string) (modelField : Field)
| OpUnset (fieldPath : list string)
| OpInsert (item : UpdateOperationField) (fieldPath : list string) (modelField : Field)
           (index : option Z)
| OpRemove (fieldPath : list string) (index : Z)
| OpReorder (fieldPath : list string) (order : list Z).

(** The properties of the content source that the modelled methods read. *)
Record FileSystemContentSource := mkSource {
  rootDir : string;
  contentDir : string
}.

(** ** The collaborators *)

(** [parseFile] gives the parsed value as a tree; for a file whose value
    has an object reached by two paths (a YAML alias) it is [Unmodelled]. *)
Class Host := {
  path_join : string -> string -> string;            (* path.join *)
  path_extname : string -> string;                   (* path.extname *)
  path_parse_name : string -> string;                (* path.parse(p).name *)
  parseFile : string -> result raw;                  (* utils.parseFile *)
  outputDataIfNeeded : string -> raw -> result unit; (* utils.outputDataIfNeeded *)
  fse_stat : string -> option (string * string);     (* birthtime and mtime, ISO *)
  date_now : string                                  (* new Date().toISOString() *)
}.

Definition MARKDOWN_FILE_EXTENSIONS : list string := ["md"; "mdx"; "markdown"].

(** The tags of the first group of cases of [convertFieldType]. *)
Definition scalar_types : list string :=
  ["string"; "slug"; "text"; "html"; "url"; "boolean"; "number"; "date";
   "datetime"; "enum"; "json"; "style"; "color"; "markdown"].

(** The tags [convertFieldType] has a case for. *)
Definition supported_types : list string :=
  scalar_types ++ ["list"; "object"; "model"; "reference"; "image"].

Definition has_name (fieldName : string) (modelField : Field) : bool :=
  bool_decide (field_name modelField = Some fieldName).

(** [{ type: 'string' }] *)
Definition string_items : Field := mkField None (Some "string") None None None.

(** An array of specs read as a spec: it has none of the properties. *)
Definition specs_array : Field := mkField None None None None None.

(** [modelField.items ?? { type: 'string' }] *)
Definition itemsModel_of (modelField : Field) : Field :=
  match field_items modelField with
  | None => string_items
  | Some (ItemsOne item) => item
  | Some (ItemsMany _) => specs_array
  end.

(** [type ?? modelField.models?.[0]] *)
Definition modelType_of (type : raw) (modelField : Field) : raw :=
  if nullish type then
    match field_models modelField with
    | Some (first :: _) => RString first
    | _ => RUndefined
    end
  else type.

Section Converter.
Context `{Host}.

(** ** The forward converter *)

(** One turn of the loop of [convertFields], over the recursive call it
    makes: [result], here [res], after the entry [(fieldName, fieldValue)].
    [result[fieldName] = documentField] under the name [__proto__] sets the
    prototype of [result] and gives it no entry. *)
Definition convertField
    (convert : raw -> Field -> result (option DocumentField))
    (modelFields : option (list Field))
    (res : list (string * DocumentField)) (entry : string * raw)
  : result (list (string * DocumentField)) :=
  let '(fieldName, fieldValue) := entry in
  match find (has_name fieldName) (default [] modelFields) with
  | None => Ok res
  | Some modelField =>
      if negb (truthy fieldValue) then Ok res
      else
        documentField ← convert fieldValue modelField;
        match documentField with
        | Some typed =>
            if String.eqb fieldName "__proto__" then Ok res
            else Ok (obj_set res fieldName typed)
        | None => Ok res
        end
  end.

Definition convertFields_with
    (convert : raw -> Field -> result (option DocumentField))
    (dataFields : raw) (modelFields : option (list Field))
  : result (list (string * DocumentField)) :=
  entries ← Object_entries dataFields;
  for_of (convertField convert modelFields) entries [].

(** One turn of the loop of the case [list]: [items] after [item]. *)
Definition pushItem (convert : raw -> result (option DocumentField))
    (items : list DocumentField) (item : raw) : result (list DocumentField) :=
  documentField ← convert item;
  match documentField with
  | Some typed => Ok (items ++ [typed])
  | None => Ok items
  end.

Fixpoint convertFieldType (fuel : nat) (fieldValue : raw) (modelField : Field)
    (modelMap : ModelMap) {struct fuel} : result (option DocumentField) :=
  match fuel with
  | O => OutOfFuel
  | S fuel =>
      let convertFields dataFields modelFields :=
        convertFields_with (fun v f => convertFieldType fuel v f modelMap)
                           dataFields modelFields in
      match field_type modelField with
      | None => Throw (UnsupportedType None)
      | Some type =>
          if bool_decide (type ∈ scalar_types) then
            Ok (Some (DFValue type fieldValue))
          else if String.eqb type "list" then
            let itemsModel := itemsModel_of modelField in
            values ← iterate fieldValue;
            items ← for_of (pushItem (fun item =>
                                        convertFieldType fuel item itemsModel modelMap))
                           values [];
            Ok (Some (DFList items))
          else if String.eqb type "object" then
            fields ← convertFields fieldValue (field_fields modelField);
            Ok (Some (DFObject fields))
          else if String.eqb type "model" then
            '(type, fields) ← destructure fieldValue;
            let modelType := modelType_of type modelField in
            model ← registry_get modelMap modelType;
            match model with
            | None => Ok None
            | Some model =>
                fields ← convertFields fields (Some (default [] (member_fields model)));
                match member_name model with
                | Some modelName => Ok (Some (DFModel modelName fields))
                | None => Unmodelled
                end
            end
          else if String.eqb type "reference" then
            Ok (Some (DFReference "document" fieldValue))
          else if String.eqb type "image" then
            match fieldValue with
            | RString file =>
                Ok (Some (DFImage
                            [("title", DFValue "string" (RString (path_parse_name file)));
                             ("url", DFValue "string" fieldValue)]))
            | _ => Throw TypeError
            end
          else Throw (UnsupportedType (Some type))
      end
  end.

Definition convertFields (fuel : nat) (dataFields : raw)
    (modelFields : option (list Field)) (modelMap : ModelMap)
  : result (list (string * DocumentField)) :=
  convertFields_with (fun v f => convertFieldType fuel v f modelMap)
                     dataFields modelFields.

Definition getFileDates (filePath : string) : string * string :=
  match fse_stat filePath with
  | Some dates => dates
  | None => (date_now, date_now)
  end.

Definition convertDocument (fuel : nat) (filePath fullFilePath : string) (data : raw)
    (modelMap : ModelMap) : result (option Document) :=
  '(type, fields) ← destructure data;
  model ← registry_get modelMap type;
  match model with
  | None => Ok None
  | Some model =>
      let dates := getFileDates fullFilePath in
      fields ← convertFields fuel fields (Some (default [] (member_fields model))) modelMap;
      match member_name model with
      | Some modelName =>
          Ok (Some {| doc_type := "document";
                      doc_id := filePath;
                      doc_modelName := modelName;
                      doc_manageUrl := "";
                      doc_status := "published";
                      doc_context := [];
                      doc_createdAt := dates.1;
                      doc_updatedAt := dates.2;
                      doc_fields := fields |})
      | None => Unmodelled
      end
  end.
End Converter.

(** ** The reverse mapper *)

(** [_.find(fields, (field) => field.name === fieldName)]; [fields] may be
    [undefined]. *)
Definition find_field (fields : option (list Field)) (fieldName : string) : option Field :=
  find (has_name fieldName) (default [] fields).

(** [modelField?.type === 'list' && modelField.items] *)
Definition listItemsModel_of (modelField : option Field) : option (ListItems Field) :=
  match modelField with
  | Some spec =>
      if bool_decide (field_type spec = Some "list") then field_items spec else None
  | None => None
  end.

(** The spec [mapUpdateOperationToValue] passes on for one item of a list. *)
Definition listItemModelField_of (listItemsModel : option (ListItems Field))
    (item : UpdateOperationField) : option Field :=
  match listItemsModel with
  | Some (ItemsMany specs) =>
      find (fun spec => bool_decide (field_type spec = Some (field_tag item))) specs
  | Some (ItemsOne spec) => Some spec
  | None => None
  end.

(** The callback of the case [object], over the recursive call it makes.
    It writes to [result], the constant the case [model] declares later in
    the same block: no case has initialised it, so reading it throws a
    [ReferenceError]; [object] itself is never written. *)
Definition objectChild
    (map : UpdateOperationField -> option Field -> result raw)
    (modelField : option Field) (_ : unit) (entry : string * UpdateOperationField)
  : result unit :=
  let '(fieldName, childUpdateOperationField) := entry in
  childModelField ← match modelField with
                    | Some spec => Ok (find_field (field_fields spec) fieldName)
                    | None => Throw TypeError
                    end;
  value ← map childUpdateOperationField childModelField;
  Throw (ReferenceError "result").

(** The callback of the case [model]: [result] after one field. *)
Definition modelChild
    (map : UpdateOperationField -> option Field -> result raw)
    (childModel : option Registered) (res : raw) (entry : string * UpdateOperationField)
  : result raw :=
  let '(fieldName, updateOperationField) := entry in
  let childModelField := find_field (childModel ≫= member_fields) fieldName in
  value ← map updateOperationField childModelField;
  lodash_set res (castPath fieldName res) value.

Fixpoint mapUpdateOperationToValue (updateOperationField : UpdateOperationField)
    (modelMap : ModelMap) (modelField : option Field) : result raw :=
  match updateOperationField with
  | DFObject fields =>
      let object := RObject [] in
      _ ← for_of (objectChild (fun child spec =>
                                 mapUpdateOperationToValue child modelMap spec)
                              modelField) fields tt;
      Ok object
  | DFModel modelName fields =>
      let childModel := registered modelMap modelName in
      for_of (modelChild (fun child spec =>
                            mapUpdateOperationToValue child modelMap spec)
                         childModel) fields (RObject [])
  | DFList items =>
      let listItemsModel := listItemsModel_of modelField in
      mapped ← mapM (fun item =>
                       mapUpdateOperationToValue item modelMap
                         (listItemModelField_of listItemsModel item)) items;
      Ok (RArray mapped)
  | DFReference _ refId => Ok refId
  | DFValue type value =>
      (* a field with a structured tag and none of its parts *)
      if String.eqb type "object" || String.eqb type "model" then Ok (RObject [])
      else if String.eqb type "list" then Throw TypeError
      else if String.eqb type "reference" then Ok RUndefined
      else Ok value
  | DFImage _ => Ok RUndefined
  end.

(** ** Updating a document *)

(** [newArr] of a [reorder] holds one object at two indices: [order]
    repeats the index of an element that is an object or an array. *)
Definition repeats_object (arr : list raw) (order : list Z) : bool :=
  negb (bool_decide
          (NoDup (List.filter (fun newIndex => isObject (element_at arr newIndex)) order))).

(** One turn of the loop of [updateDocument]: the [switch] on [opType]
    applied to [data]. *)
Definition applyUpdateOperation (modelMap : ModelMap) (data : raw)
    (updateOperation : UpdateOperation) : result raw :=
  match updateOperation with
  | OpSet field fieldPath modelField =>
      value ← mapUpdateOperationToValue field modelMap (Some modelField);
      lodash_set data fieldPath value
  | OpUnset fieldPath =>
      lodash_unset data fieldPath
  | OpInsert item fieldPath modelField index =>
      value ← mapUpdateOperationToValue item modelMap (Some modelField);
      found ← lodash_get data fieldPath;
      arr ← iterate found;
      lodash_set data fieldPath (RArray (splice arr (default 0%Z index) 0 [value]))
  | OpRemove fieldPath index =>
      found ← lodash_get data fieldPath;
      arr ← iterate found;
      lodash_set data fieldPath (RArray (splice arr index 1 []))
  | OpReorder fieldPath order =>
      found ← lodash_get data fieldPath;
      arr ← iterate found;
      let newArr := map (fun newIndex => element_at arr newIndex) order in
      data ← lodash_set data fieldPath (RArray newArr);
      if repeats_object arr order then Unmodelled else Ok data
  end.

Section Update.
Context `{Host}.

Definition markdown_file (filePath : string) : bool :=
  let extension := String.substring 1 (String.length (path_extname filePath))
                                    (path_extname filePath) in
  bool_decide (extension ∈ MARKDOWN_FILE_EXTENSIONS).

Definition getFileData (filePath : string) : result raw :=
  data ← parseFile filePath;
  if markdown_file filePath && lodash_has data "frontmatter" && lodash_has data "markdown"
  then Ok (default RUndefined (own_property data "frontmatter"))
  else Ok data.

(** [{ ...existingData, frontmatter: data }] *)
Definition with_frontmatter (existingData data : raw) : raw :=
  let own := match Object_entries existingData with
             | Ok entries => entries
             | _ => []
             end in
  RObject (obj_set own "frontmatter" data).

Definition saveFileData (filePath : string) (data : raw) : result unit :=
  if markdown_file filePath then
    existingData ← parseFile filePath;
    outputDataIfNeeded filePath (with_frontmatter existingData data)
  else outputDataIfNeeded filePath data.

Definition updateDocument (fuel : nat) (this : FileSystemContentSource)
    (document : Document) (operations : list UpdateOperation) (modelMap : ModelMap)
  : result Document :=
  let filePath := path_join (rootDir this) (doc_id document) in
  data ← getFileData filePath;
  data ← for_of (applyUpdateOperation modelMap) operations data;
  _ ← saveFileData filePath data;
  converted ← convertDocument fuel (doc_id document) filePath data modelMap;
  Ok (default document converted).
End Update.

(** ** Notions the statements use *)

Definition number_eqb (x y : number) : bool :=
  match x, y with
  | NaN, NaN => true
  | Num a, Num b => (a =? b)%Z
  | _, _ => false
  end.

(** Deep equality (lodash [isEqual]): arrays item by item, objects key by
    key whatever the order of their entries. *)
Fixpoint isEqual (a b : raw) {struct a} : bool :=
  match a, b with
  | RUndefined, RUndefined => true
  | RNull, RNull => true
  | RBool x, RBool y => Bool.eqb x y
  | RNumber x, RNumber y => number_eqb x y
  | RString x, RString y => String.eqb x y
  | RArray xs, RArray ys =>
      (fix items xs ys {struct xs} :=
         match xs, ys with
         | [], [] => true
         | x :: xs', y :: ys' => isEqual x y && items xs' ys'
         | _, _ => false
         end) xs ys
  | RObject xs, RObject ys =>
      (length xs =? length ys)
      && forallb (fun kv => match obj_get ys kv.1 with
                            | Some y => isEqual kv.2 y
                            | None => false
                            end) xs
  | _, _ => false
  end.

(** The nesting depth of a raw value: the call depth its conversion needs. *)
Fixpoint depth (v : raw) : nat :=
  match v with
  | RArray items => S (list_max (map depth items))
  | RObject entries => S (list_max (map (fun kv => depth kv.2) entries))
  | _ => 0
  end.

(** A field name lodash takes as one key, whatever the object. *)
Definition plain_key (fieldName : string) : bool :=
  isPlainProp fieldName || negb (isDeepProp fieldName).

(** The raw values the converter keeps whole under a field spec: values of
    the scalar-like and reference types, arrays of kept items, and records
    of a model, found by the spec's first model name, that carry neither
    [id] nor [type] and only truthy, declared, kept fields under plain
    keys that [_.set] does not refuse. *)
Fixpoint lossless (modelMap : ModelMap) (fieldValue : raw) (modelField : Field)
    {struct fieldValue} : bool :=
  match field_type modelField with
  | None => false
  | Some type =>
      if bool_decide (type ∈ scalar_types) || String.eqb type "reference" then true
      else if String.eqb type "list" then
        match fieldValue with
        | RArray values =>
            forallb (fun item => lossless modelMap item (itemsModel_of modelField)) values
        | _ => false
        end
      else if String.eqb type "model" then
        match fieldValue, field_models modelField with
        | RObject entries, Some (first :: _) =>
            match modelMap !! first with
            | Some model =>
                bool_decide (NoDup entries.*1)
                && forallb (fun kv =>
                              negb (String.eqb kv.1 "id" || String.eqb kv.1 "type")
                              && plain_key kv.1
                              && negb (refused_key kv.1)
                              && truthy kv.2
                              && match find_field (model_fields model) kv.1 with
                                 | Some spec => lossless modelMap kv.2 spec
                                 | None => false
                                 end) entries
            | None => false
            end
        | _, _ => false
        end
      else false
  end.


(** [key] names an entry of the container [nested]: any key of an object,
    an index of an array. *)
Definition names_entry (nested : raw) (key : string) : Prop :=
  match nested with
  | RObject _ => True
  | RArray _ => is_Some (array_index key)
  | _ => False
  end.

(** ** A host, a registry and a record to run the definitions on *)

(** POSIX paths, as far as the examples need them: the part after the last
    [/], and that part without its extension. *)
Fixpoint last_segment (s seen : list ascii) : list ascii :=
  match s with
  | [] => seen
  | c :: rest => if Ascii.eqb c "/" then last_segment rest [] else last_segment rest (seen ++ [c])
  end.

Definition split_extension (base : list ascii) : list ascii * list ascii :=
  let '(ext_reversed, before_reversed) :=
    span (fun c => negb (Ascii.eqb c ".")) (rev base) in
  match before_reversed with
  | dot :: (_ :: _) as name_reversed => (rev name_reversed, dot :: rev ext_reversed)
  | _ => (base, [])
  end.

Definition posix_name (file : string) : string :=
  String.string_of_list_ascii
    (split_extension (last_segment (String.list_ascii_of_string file) [])).1.

Definition posix_extname (file : string) : string :=
  String.string_of_list_ascii
    (split_extension (last_segment (String.list_ascii_of_string file) [])).2.

(** A host whose every file holds the record of one post. *)
Definition example_host : Host := {|
  path_join := fun dir file => dir +:+ "/" +:+ file;
  path_extname := posix_extname;
  path_parse_name := posix_name;
  parseFile := fun _ =>
    Ok (RObject [("id", RString "x"); ("type", RString "post");
                 ("title", RString "Hi");
                 ("tags", RArray [RString "a"; RString "b"])]);
  outputDataIfNeeded := fun _ _ => Ok tt;
  fse_stat := fun _ => None;
  date_now := "2024-01-01T00:00:00.000Z"
|}.

Definition string_field (fieldName : string) : Field :=
  mkField (Some fieldName) (Some "string") None None None.

Definition tags_field : Field :=
  mkField (Some "tags") (Some "list") None None None.

Definition author_field : Field :=
  mkField (Some "author") (Some "model") None None (Some ["person"]).

Definition meta_field : Field :=
  mkField (Some "meta") (Some "object") None (Some [string_field "keywords"]) None.

Definition post_model : Model :=
  mkModel "post" (Some [string_field "title"; tags_field; author_field; meta_field]).

Definition person_model : Model :=
  mkModel "person" (Some [string_field "name"]).

Definition example_models : ModelMap :=
  {[ "post" := post_model; "person" := person_model ]}.

Definition example_document : Document := {|
  doc_type := "document"; doc_id := "content/x.json"; doc_modelName := "post";
  doc_manageUrl := ""; doc_status := "published"; doc_context := [];
  doc_createdAt := "2023-01-01T00:00:00.000Z";
  doc_updatedAt := "2023-01-01T00:00:00.000Z";
  doc_fields := [("title", DFValue "string" (RString "Hi"))]
|}.

Definition example_fields : list (string * raw) :=
  [("title", RString "Hi");
   ("tags", RArray [RString "a"; RString "b"]);
   ("subtitle", RString "");
   ("layout", RString "wide")].

Definition authors_field : Field :=
  mkField (Some "authors") (Some "list") (Some (ItemsOne author_field)) None None.

Definition example_authors : list raw :=
  [RObject [("name", RString "Bob")];
   RObject [("type", RString "ghost"); ("name", RString "Eve")];
   RObject [("name", RString "Al")]].


Definition example_author : raw := RObject [("name", RString "Bob")].

Definition example_tagged_author : raw :=
  RObject [("type", RString "person"); ("name", RString "Bob")].

Definition example_authors_kept : list raw :=
  [RObject [("name", RString "Bob")]; RObject [("name", RString "Al")]].

(** A host whose files hold a record without [type]. *)
Definition untyped_host : Host := {|
  path_join := fun dir file => dir +:+ "/" +:+ file;
  path_extname := posix_extname;
  path_parse_name := posix_name;
  parseFile := fun _ => Ok (RObject [("title", RString "Hi")]);
  outputDataIfNeeded := fun _ _ => Ok tt;
  fse_stat := fun _ => None;
  date_now := "2024-01-01T00:00:00.000Z"
|}.

(** ** The rest of the content source: listings, changes and assets *)

(** [Assets] of [@stackbit/types], as far as the source reads it. *)
Record Assets := mkAssets {
  referenceType : string;
  staticDir : option string;
  assetsDir : option string;
  publicPath : option string
}.

(** An [Asset]: the envelope, and the [url] and [fileName] of [fields.file]
    and the [value] of [fields.title]. *)
Record Asset := mkAsset {
  asset_type : string;
  asset_id : string;
  asset_context : list (string * raw);
  asset_createdAt : string;
  asset_updatedAt : string;
  asset_manageUrl : string;
  asset_status : string;
  asset_file_type : string;
  asset_file_url : string;
  asset_file_fileName : string;
  asset_title_type : string;
  asset_title_value : string
}.

(** The collaborators of the listings. *)
Class Directory := {
  readDirRec : string -> result (list string);   (* utils.readDirRec *)
  pathExists : string -> bool;                   (* fse.pathExists *)
  path_relative : string -> string -> string;    (* path.relative *)
  path_basename : string -> string               (* path.basename *)
}.

(** The content source with what [init] and [startWatchingContentUpdates]
    have stored: [logger] says whether there is one, and [getModelMap]
    holds the registry its function returns. *)
Record ContentSource := mkContentSource {
  cs_source : FileSystemContentSource;
  cs_models : list Model;
  cs_assets : Assets;
  cs_logger : bool;
  cs_getModelMap : option ModelMap
}.

(** [this.logger?.warn(message)]: the messages handed to the logger. *)
Definition warn (this : ContentSource) (warnings : list string) (message : string)
  : list string :=
  if cs_logger this then warnings ++ [message] else warnings.

Record ContentChangeEvent := mkEvent {
  event_documents : list Document;
  event_assets : list Asset;
  deletedDocumentIds : list string;
  deletedAssetIds : list string
}.

(** What [onFilesChange] resolves to; [{}] has neither property. *)
Record FilesChange := mkFilesChange {
  schemaChanged : option bool;
  contentChangeEvent : option ContentChangeEvent
}.

(** [referenceType === 'static' ? staticDir : assetsDir ?? staticDir] *)
Definition assets_directory (assets : Assets) : option string :=
  if String.eqb (referenceType assets) "static" then staticDir assets
  else match assetsDir assets with
       | Some dir => Some dir
       | None => staticDir assets
       end.

Definition startWatchingContentUpdates (this : ContentSource) (getModelMap : ModelMap)
  : ContentSource :=
  {| cs_source := cs_source this; cs_models := cs_models this;
     cs_assets := cs_assets this; cs_logger := cs_logger this;
     cs_getModelMap := Some getModelMap |}.

Section Listings.
Context `{Host} `{Directory}.

Definition convertAsset (filePath fullFilePath : string) (publicPath : option string)
  : Asset :=
  let dates := getFileDates fullFilePath in
  {| asset_type := "asset";
     asset_id := filePath;
     asset_context := [];
     asset_createdAt := dates.1;
     asset_updatedAt := dates.2;
     asset_manageUrl := "";
     asset_status := "published";
     asset_file_type := "assetFile";
     asset_file_url := default "" publicPath +:+ filePath;
     asset_file_fileName := filePath;
     asset_title_type := "string";
     asset_title_value := path_basename filePath |}.

(** One turn of the loop of [getAssets]; the asset is written out in the
    method, not built by [convertAsset]. *)
Definition pushAsset (this : ContentSource) (assets : list Asset) (filePath : string)
  : result (list Asset) :=
  let fullFilePath := path_join (rootDir (cs_source this)) filePath in
  let dates := getFileDates fullFilePath in
  Ok (assets ++
      [{| asset_type := "asset";
          asset_id := filePath;
          asset_context := [];
          asset_createdAt := dates.1;
          asset_updatedAt := dates.2;
          asset_manageUrl := "";
          asset_status := "published";
          asset_file_type := "assetFile";
          asset_file_url := default "" (publicPath (cs_assets this)) +:+ filePath;
          asset_file_fileName := filePath;
          asset_title_type := "string";
          asset_title_value := path_basename filePath |}]).

(** [path.join] throws a [TypeError] on an argument that is not a string. *)
Definition getAssets (this : ContentSource) : result (list Asset) :=
  match assets_directory (cs_assets this) with
  | None => Throw TypeError
  | Some dir =>
      filePaths ← readDirRec (path_join (rootDir (cs_source this)) dir);
      for_of (pushAsset this) filePaths []
  end.

(** One turn of the loop of [getDocuments]: the documents and the messages
    handed to [logger.warn] so far.  Only the loading is inside the [try]. *)
Definition listDocument (fuel : nat) (this : ContentSource) (modelMap : ModelMap)
    (listed : list Document * list string) (filePath : string)
  : result (list Document * list string) :=
  let '(documents, warnings) := listed in
  let fullFilePath :=
    path_join (path_join (rootDir (cs_source this)) (contentDir (cs_source this)))
              filePath in
  match getFileData fullFilePath with
  | Throw _ => Ok (documents, warn this warnings ("Error loading file " +:+ filePath))
  | loaded =>
      data ← loaded;
      document ← convertDocument fuel
                   (path_relative (rootDir (cs_source this)) fullFilePath)
                   fullFilePath data modelMap;
      match document with
      | Some converted => Ok (documents ++ [converted], warnings)
      | None => Ok (documents, warn this warnings ("Error converting file " +:+ filePath))
      end
  end.

(** [path.join(rootDir, contentDir, filePath)] is the join of the join. *)
Definition getDocuments (fuel : nat) (this : ContentSource) (modelMap : ModelMap)
  : result (list Document * list string) :=
  filePaths ← readDirRec (path_join (rootDir (cs_source this))
                                    (contentDir (cs_source this)));
  for_of (listDocument fuel this modelMap) filePaths ([], []).

(** The state of the first loop of [onFilesChange]. *)
Record ChangedDocuments := mkChanged {
  changed_documents : list Document;
  changed_deleted : list string;
  changed_warnings : list string
}.

Definition changedDocument (fuel : nat) (this : ContentSource) (modelMap : ModelMap)
    (seen : ChangedDocuments) (contentFile : string) : result ChangedDocuments :=
  let filePath := path_join (rootDir (cs_source this)) contentFile in
  if negb (pathExists filePath) then
    Ok (mkChanged (changed_documents seen) (changed_deleted seen ++ [contentFile])
                  (changed_warnings seen))
  else
    match getFileData filePath with
    | Throw _ =>
        Ok (mkChanged (changed_documents seen) (changed_deleted seen)
                      (warn this (changed_warnings seen) ("Error loading file " +:+ filePath)))
    | loaded =>
        data ← loaded;
        document ← convertDocument fuel contentFile filePath data modelMap;
        match document with
        | Some converted =>
            Ok (mkChanged (changed_documents seen ++ [converted]) (changed_deleted seen)
                          (changed_warnings seen))
        | None =>
            Ok (mkChanged (changed_documents seen) (changed_deleted seen)
                          (warn this (changed_warnings seen)
                                ("Error converting file " +:+ filePath)))
        end
    end.

(** One turn of the second loop: the assets and the deleted asset ids. *)
Definition changedAsset (this : ContentSource) (seen : list Asset * list string)
    (assetFile : string) : result (list Asset * list string) :=
  let '(assets, deleted) := seen in
  let filePath := path_join (rootDir (cs_source this)) assetFile in
  if negb (pathExists filePath) then Ok (assets, deleted ++ [assetFile])
  else Ok (assets ++ [convertAsset assetFile filePath (publicPath (cs_assets this))],
           deleted).

(** [updatedFile.startsWith(dir)]; an [undefined] directory is searched
    for as the string [undefined]. *)
Definition startsWith (dir : option string) (updatedFile : string) : bool :=
  String.prefix (default "undefined" dir) updatedFile.

Definition onFilesChange (fuel : nat) (this : ContentSource) (updatedFiles : list string)
  : result (FilesChange * list string) :=
  match cs_getModelMap this with
  | None => Ok (mkFilesChange None None, [])
  | Some modelMap =>
      let contentFiles :=
        List.filter (startsWith (Some (contentDir (cs_source this)))) updatedFiles in
      changed ← for_of (changedDocument fuel this modelMap) contentFiles
                       (mkChanged [] [] []);
      let assetFiles :=
        List.filter (startsWith (assets_directory (cs_assets this))) updatedFiles in
      '(assets, deletedAssets) ← for_of (changedAsset this) assetFiles ([], []);
      Ok (mkFilesChange (Some false)
            (Some (mkEvent (changed_documents changed) assets
                           (changed_deleted changed) deletedAssets)),
          changed_warnings changed)
  end.
End Listings.

(** The value at a path is something the array operations can spread. *)
Definition spreadable (v : raw) : bool :=
  match v with
  | RArray _ | RString _ => true
  | _ => false
  end.

(** No key of the path is one [_.set] refuses. *)
Definition refused_path (path : list string) : bool := existsb refused_key path.

(** [path] can be written into [nested]: no key of it is refused, every
    key that meets an array, an existing one or one [_.set] creates on the
    way, is an index, and no key but the last names a member that an
    object on the way inherits and does not have of its own. *)
Fixpoint writable (nested : raw) (path : list string) : Prop :=
  match path with
  | [] => False
  | key :: rest =>
      names_entry nested key
      ∧ refused_key key = false
      ∧ match rest with
        | [] => True
        | next :: _ =>
            match property_get nested key with
            | Ok objValue =>
                writable (if isObject objValue then objValue
                          else if isIndex next then RArray [] else RObject []) rest
            | _ => False
            end
        end
  end.

(** [delete parent[key]] takes the entry away and a read finds nothing in
    its place: [parent] is an object with one entry per key, which inherits
    no member under [key]; or an array, and [key] is an index. *)
Definition deletable (parent : raw) (key : string) : Prop :=
  match parent with
  | RObject entries => NoDup entries.*1 ∧ key ∉ Object_prototype_names
  | RArray _ => is_Some (array_index key)
  | _ => False
  end.

(** The update fields the reverse mapper has a value for: no object field
    with a child anywhere, and no field tagged [list] without [items]. *)
Fixpoint mappable (updateOperationField : UpdateOperationField) : bool :=
  match updateOperationField with
  | DFValue type _ => negb (String.eqb type "list")
  | DFList items => forallb mappable items
  | DFObject fields => match fields with [] => true | _ :: _ => false end
  | DFModel _ fields => forallb (fun kd => mappable kd.2) fields
  | DFReference _ _ => true
  | DFImage _ => true
  end.

(** Every field name of a model in the update field is one key for
    [_.set], whatever the object. *)
Fixpoint plain_names (updateOperationField : UpdateOperationField) : bool :=
  match updateOperationField with
  | DFList items => forallb plain_names items
  | DFModel _ fields => forallb (fun kd => plain_key kd.1 && plain_names kd.2) fields
  | DFValue _ _ | DFObject _ | DFReference _ _ | DFImage _ => true
  end.

(** A host whose files are markdown files with front matter. *)
Definition markdown_host : Host := {|
  path_join := fun dir file => dir +:+ "/" +:+ file;
  path_extname := posix_extname;
  path_parse_name := posix_name;
  parseFile := fun _ =>
    Ok (RObject [("frontmatter", RObject [("type", RString "post"); ("title", RString "Hi")]);
                 ("markdown", RString "Body")]);
  outputDataIfNeeded := fun _ _ => Ok tt;
  fse_stat := fun _ => None;
  date_now := "2024-01-01T00:00:00.000Z"
|}.

(** The same host after the front matter has been rewritten. *)
Definition markdown_host_saved : Host := {|
  path_join := fun dir file => dir +:+ "/" +:+ file;
  path_extname := posix_extname;
  path_parse_name := posix_name;
  parseFile := fun _ =>
    Ok (RObject [("frontmatter", RObject [("type", RString "post"); ("title", RString "Yo")]);
                 ("markdown", RString "Body")]);
  outputDataIfNeeded := fun _ _ => Ok tt;
  fse_stat := fun _ => None;
  date_now := "2024-01-01T00:00:00.000Z"
|}.

(** A directory listing for the examples: two files, one of them gone. *)
Definition example_directory : Directory := {|
  readDirRec := fun _ => Ok ["a.json"; "b.json"];
  pathExists := fun file => negb (String.eqb file "/site/content/gone.json");
  path_relative := fun from to =>
    String.substring (S (String.length from)) (String.length to) to;
  path_basename := fun file =>
    String.string_of_list_ascii (last_segment (String.list_ascii_of_string file) [])
|}.

Definition example_source : ContentSource := {|
  cs_source := mkSource "/site" "content";
  cs_models := [post_model; person_model];
  cs_assets := mkAssets "static" (Some "public") (Some "assets") (Some "/");
  cs_logger := true;
  cs_getModelMap := None
|}.

(** A host whose files hold a post of an unsupported field type. *)
Definition rich_host : Host := {|
  path_join := fun dir file => dir +:+ "/" +:+ file;
  path_extname := posix_extname;
  path_parse_name := posix_name;
  parseFile := fun _ => Ok (RObject [("type", RString "note"); ("body", RString "text")]);
  outputDataIfNeeded := fun _ _ => Ok tt;
  fse_stat := fun _ => None;
  date_now := "2024-01-01T00:00:00.000Z"
|}.

Definition note_models : ModelMap :=
  {[ "note" := mkModel "note" (Some [mkField (Some "body") (Some "richText") None None None]) ]}.

(** * Properties *)

(** ** Entry lists and loops *)

Section entries.
Context {V : Type}.
Implicit Types (o : list (string * V)) (k : string) (v : V).

Lemma obj_get_set_eq o k v : obj_get (obj_set o k v) k = Some v.
Proof.
  induction o as [|[k' v'] o IH]; simpl.
  - by rewrite String.eqb_refl.
  - destruct (String.eqb_spec k' k) as [->|Hne]; simpl.
    + by rewrite String.eqb_refl.
    + by destruct (String.eqb_spec k' k).
Qed.

Lemma obj_get_set_ne o k k' v : k ≠ k' → obj_get (obj_set o k v) k' = obj_get o k'.
Proof.
  intros Hne. induction o as [|[k0 v0] o IH]; simpl.
  - by destruct (String.eqb_spec k k').
  - destruct (String.eqb_spec k0 k) as [->|Hk]; simpl.
    + by destruct (String.eqb_spec k k').
    + by rewrite IH.
Qed.

Lemma obj_get_None o k : obj_get o k = None ↔ k ∉ o.*1.
Proof.
  induction o as [|[k' v'] o IH]; simpl.
  - split; [intros _; apply not_elem_of_nil | done].
  - rewrite not_elem_of_cons. destruct (String.eqb_spec k' k) as [->|Hk].
    + split; [intros [=] | intros [Hc _]; by destruct Hc].
    + rewrite IH. split; [by intros ? | by intros [_ ?]].
Qed.


Lemma obj_set_fresh o k v : k ∉ o.*1 → obj_set o k v = o ++ [(k, v)].
Proof.
  induction o as [|[k' v'] o IH]; simpl; [done|].
  rewrite not_elem_of_cons. intros [Hk Ho].
  destruct (String.eqb_spec k' k) as [->|_]; [done|]. by rewrite IH.
Qed.
End entries.

Lemma for_of_app {A S : Type} (body : S → A → result S) xs ys s :
  for_of body (xs ++ ys) s = s' ← for_of body xs s; for_of body ys s'.
Proof.
  revert s. induction xs as [|x xs IH]; intros s; simpl; [done|].
  destruct (body s x); simpl; [apply IH | done..].
Qed.

Lemma bind_Ok {A B : Type} (m : result A) (f : A → result B) b :
  m ≫= f = Ok b ↔ ∃ a, m = Ok a ∧ f a = Ok b.
Proof.
  destruct m; simpl; split; try done.
  - eauto.
  - by intros (? & [= <-] & ?).
  - by intros (? & ? & ?).
  - by intros (? & ? & ?).
  - by intros (? & ? & ?).
Qed.

(** ** The loop of [convertFields] *)


Lemma convertField_reached convert modelFields res fieldName fieldValue modelField :
  find (has_name fieldName) (default [] modelFields) = Some modelField →
  truthy fieldValue = true →
  convertField convert modelFields res (fieldName, fieldValue) =
    documentField ← convert fieldValue modelField;
    Ok (match documentField with
        | Some typed =>
            if String.eqb fieldName "__proto__" then res else obj_set res fieldName typed
        | None => res
        end).
Proof.
  intros Hfind Htruthy. unfold convertField. rewrite Hfind, Htruthy. simpl.
  destruct (convert fieldValue modelField) as [[typed|]| | |]; try done.
  simpl. by destruct (String.eqb fieldName "__proto__").
Qed.





(** ** The cases of [convertFieldType] *)

Lemma not_supported_inv (tag : string) :
  tag ∉ supported_types →
  (tag ∉ scalar_types) ∧ tag ≠ "list" ∧ tag ≠ "object" ∧ tag ≠ "model"
  ∧ tag ≠ "reference" ∧ tag ≠ "image".
Proof.
  unfold supported_types. rewrite not_elem_of_app, !not_elem_of_cons.
  intros (? & ? & ? & ? & ? & ? & _). by split_and!.
Qed.

Section cases.
Context `{Host}.
Implicit Types (fuel : nat) (fieldValue : raw) (modelField : Field) (modelMap : ModelMap).

Lemma convertFieldType_scalar fuel fieldValue modelField modelMap type :
  field_type modelField = Some type → type ∈ scalar_types →
  convertFieldType (S fuel) fieldValue modelField modelMap
  = Ok (Some (DFValue type fieldValue)).
Proof. intros Htype Hin. cbn [convertFieldType]. rewrite Htype. by rewrite bool_decide_true. Qed.

Lemma convertFieldType_case_list fuel fieldValue modelField modelMap :
  field_type modelField = Some "list" →
  convertFieldType (S fuel) fieldValue modelField modelMap
  = values ← iterate fieldValue;
    items ← for_of (pushItem (λ item,
                      convertFieldType fuel item (itemsModel_of modelField) modelMap))
                   values [];
    Ok (Some (DFList items)).
Proof. intros Htype. cbn [convertFieldType]. by rewrite Htype. Qed.


Lemma convertFieldType_case_model fuel fieldValue modelField modelMap :
  field_type modelField = Some "model" →
  convertFieldType (S fuel) fieldValue modelField modelMap
  = '(type, fields) ← destructure fieldValue;
    model ← registry_get modelMap (modelType_of type modelField);
    match model with
    | None => Ok None
    | Some model =>
        fields ← convertFields fuel fields (Some (default [] (member_fields model))) modelMap;
        match member_name model with
        | Some modelName => Ok (Some (DFModel modelName fields))
        | None => Unmodelled
        end
    end.
Proof. intros Htype. cbn [convertFieldType]. by rewrite Htype. Qed.

Lemma convertFieldType_reference fuel fieldValue modelField modelMap :
  field_type modelField = Some "reference" →
  convertFieldType (S fuel) fieldValue modelField modelMap
  = Ok (Some (DFReference "document" fieldValue)).
Proof. intros Htype. cbn [convertFieldType]. by rewrite Htype. Qed.


Lemma convertFieldType_unsupported fuel fieldValue modelField modelMap tag :
  field_type modelField = Some tag → tag ∉ supported_types →
  convertFieldType (S fuel) fieldValue modelField modelMap
  = Throw (UnsupportedType (Some tag)).
Proof.
  intros Htype (Hscalar & Hlist & Hobject & Hmodel & Hreference & Himage)%not_supported_inv.
  cbn [convertFieldType]. rewrite Htype. rewrite bool_decide_false by done.
  by repeat match goal with
            | |- context [String.eqb tag ?s] => destruct (String.eqb_spec tag s)
            end.
Qed.


Lemma pushItem_Ok (convert : raw → result (option DocumentField)) acc item documentField :
  convert item = Ok documentField →
  pushItem convert acc item = Ok (acc ++ option_list documentField).
Proof.
  intros Hitem. unfold pushItem. rewrite Hitem. simpl.
  destruct documentField; simpl; [done | by rewrite app_nil_r].
Qed.

Lemma pushItem_loop (convert : raw → result (option DocumentField)) values converted acc :
  Forall2 (λ item documentField, convert item = Ok documentField) values converted →
  for_of (pushItem convert) values acc = Ok (acc ++ omap id converted).
Proof.
  intros Hall. revert acc.
  induction Hall as [|item documentField values converted Hitem _ IH]; intros acc.
  - by rewrite app_nil_r.
  - cbn [for_of]. rewrite (pushItem_Ok _ _ _ _ Hitem). simpl. rewrite IH.
    rewrite <- app_assoc. by destruct documentField.
Qed.

End cases.

(** C5. A list-typed spec and a raw array: the item spec is the explicit
    [items] or else [{ type: 'string' }]; every element is converted with
    it; the elements whose conversion is [null] are dropped, the others keep
    their order; the result is [{ type: 'list', items }]. *)
Theorem convertFieldType_list `{Host} fuel values modelField modelMap converted :
  field_type modelField = Some "list" →
  Forall2 (λ item documentField,
             convertFieldType fuel item (itemsModel_of modelField) modelMap
             = Ok documentField) values converted →
  convertFieldType (S fuel) (RArray values) modelField modelMap
  = Ok (Some (DFList (omap id converted)))
  ∧ (∀ item, field_items modelField = Some (ItemsOne item) →
             itemsModel_of modelField = item)
  ∧ (field_items modelField = None →
     itemsModel_of modelField = mkField None (Some "string") None None None).
Proof.
  intros Htype Hall. split_and!.
  - rewrite convertFieldType_case_list by done. simpl.
    by rewrite (pushItem_loop _ _ _ _ Hall).
  - intros item Hitems. unfold itemsModel_of. by rewrite Hitems.
  - intros Hitems. unfold itemsModel_of. by rewrite Hitems.
Qed.

(** Three authors, the second of a model the registry does not hold. *)
Lemma convertFieldType_list_witness :
  field_type authors_field = Some "list"
  ∧ @convertFieldType example_host 3 (RArray example_authors) authors_field example_models
    = Ok (Some (DFList [DFModel "person" [("name", DFValue "string" (RString "Bob"))];
                        DFModel "person" [("name", DFValue "string" (RString "Al"))]])).
Proof.
  split; [reflexivity|].
  apply (@convertFieldType_list example_host 2 example_authors authors_field example_models
           [Some (DFModel "person" [("name", DFValue "string" (RString "Bob"))]);
            None;
            Some (DFModel "person" [("name", DFValue "string" (RString "Al"))])]).
  - reflexivity.
  - repeat constructor; vm_compute; reflexivity.
Defined.

Lemma destructure_record entries :
  destructure (RObject entries)
  = Ok (default RUndefined (obj_get entries "type"),
        RObject (List.filter (λ kv, negb (String.eqb kv.1 "id" || String.eqb kv.1 "type"))
                             entries)).
Proof. reflexivity. Qed.

(** ** The registry *)

Lemma registered_own modelMap key model :
  modelMap !! key = Some model → registered modelMap key = Some (OwnModel model).
Proof. intros Hown. unfold registered. by rewrite Hown. Qed.

Lemma registered_None modelMap key :
  registered modelMap key = None
  ↔ modelMap !! key = None ∧ key ∉ Object_prototype_names.
Proof.
  unfold registered, Object_prototype_names. rewrite not_elem_of_cons.
  destruct (modelMap !! key) as [model|]; [by split; [|intros [? _]]|].
  destruct (String.eqb_spec key "__proto__") as [->|Hproto].
  { split; [done|]. by intros (_ & ? & _). }
  destruct (String.eqb_spec key "constructor") as [->|Hconstructor].
  { split; [done|]. intros (_ & _ & Hnot). destruct Hnot. apply elem_of_cons. by left. }
  destruct (decide (key ∈ Object_prototype_functions)) as [Hin|Hout].
  - rewrite bool_decide_true by done. split; [done|]. by intros (_ & _ & ?).
  - rewrite bool_decide_false by done. by split.
Qed.












(** ** An unsupported tag *)

Lemma convertFields_abort `{Host} fuel before fieldName fieldValue after
    modelFields modelMap modelField converted e :
  convertFields fuel (RObject before) modelFields modelMap = Ok converted →
  find (has_name fieldName) (default [] modelFields) = Some modelField →
  truthy fieldValue = true →
  convertFieldType fuel fieldValue modelField modelMap = Throw e →
  convertFields fuel (RObject (before ++ (fieldName, fieldValue) :: after))
                modelFields modelMap = Throw e.
Proof.
  unfold convertFields, convertFields_with.
  cbn [Object_entries mbind result_bind]. intros Hbefore Hfind Htruthy Hthrow.
  rewrite for_of_app, Hbefore. cbn [mbind result_bind for_of].
  rewrite (convertField_reached _ _ _ _ _ modelField) by done. by rewrite Hthrow.
Qed.

Lemma supported_types_NoDup : NoDup supported_types.
Proof. apply (bool_decide_unpack _). by vm_compute. Qed.

(** C3, as the code has it.  The nineteen tags with a case are the
    fourteen scalar-like ones and [list], [object], [model], [reference] and
    [image].  For a spec with any other tag [convertFieldType] throws the
    unsupported-type error, whatever the value; the error leaves
    [convertFields] as soon as the entry is reached, the entries converted
    before it being lost, and leaves [convertDocument] in turn. *)
Theorem unsupported_type_aborts `{Host} tag modelField :
  tag ∉ supported_types →
  field_type modelField = Some tag →
  length supported_types = 19
  ∧ (∀ fuel fieldValue modelMap,
       convertFieldType (S fuel) fieldValue modelField modelMap
       = Throw (UnsupportedType (Some tag)))
  ∧ (∀ fuel before fieldName fieldValue after modelFields modelMap converted,
       convertFields (S fuel) (RObject before) modelFields modelMap = Ok converted →
       find (has_name fieldName) (default [] modelFields) = Some modelField →
       truthy fieldValue = true →
       convertFields (S fuel) (RObject (before ++ (fieldName, fieldValue) :: after))
                     modelFields modelMap
       = Throw (UnsupportedType (Some tag)))
  ∧ (∀ fuel filePath fullFilePath data modelMap type fields model,
       destructure data = Ok (type, fields) →
       registry_get modelMap type = Ok (Some model) →
       convertFields fuel fields (Some (default [] (member_fields model))) modelMap
       = Throw (UnsupportedType (Some tag)) →
       convertDocument fuel filePath fullFilePath data modelMap
       = Throw (UnsupportedType (Some tag))).
Proof.
  intros Htag Htype. split_and!.
  - reflexivity.
  - intros. by apply convertFieldType_unsupported.
  - intros fuel before fieldName fieldValue after modelFields modelMap converted
      Hbefore Hfind Htruthy.
    eapply convertFields_abort; [done..|]. by apply convertFieldType_unsupported.
  - intros fuel filePath fullFilePath data modelMap type fields model Hd Hlookup Hthrow.
    unfold convertDocument. rewrite Hd. simpl. rewrite Hlookup. simpl. by rewrite Hthrow.
Qed.

(** A post whose [body] has the tag [richText]: the converted [title] is
    lost with the exception. *)
Lemma unsupported_type_aborts_witness :
  ("richText" ∉ supported_types)
  ∧ @convertFields example_host 2
      (RObject [("title", RString "Hi"); ("body", RString "text")])
      (Some [string_field "title"; mkField (Some "body") (Some "richText") None None None])
      example_models
    = Throw (UnsupportedType (Some "richText")).
Proof.
  assert ("richText" ∉ supported_types) as Htag.
  { apply (bool_decide_unpack _). by vm_compute. }
  split; [exact Htag|].
  apply (proj1 (proj2 (proj2
           (@unsupported_type_aborts example_host "richText"
              (mkField (Some "body") (Some "richText") None None None) Htag eq_refl)))
           1 [("title", RString "Hi")] "body" (RString "text") []
           (Some [string_field "title";
                  mkField (Some "body") (Some "richText") None None None])
           example_models [("title", DFValue "string" (RString "Hi"))]);
    reflexivity.
Defined.

(** C3, as stated: no sixteen tags are such that every spec with a tag
    outside them makes [convertFieldType] throw the unsupported-type
    error: of the nineteen tags with a case at least three are left out,
    and a spec with one of them converts the value ['x']. *)
Lemma sixteen_supported_tags_counterexample :
  ¬ ∃ tags : list string,
      length tags = 16
      ∧ ∀ tag, tag ∉ tags →
          ∀ fieldValue modelField modelMap,
            field_type modelField = Some tag →
            @convertFieldType example_host 2 fieldValue modelField modelMap
            = Throw (UnsupportedType (Some tag)).
Proof.
  intros (tags & Hlength & Hthrow).
  destruct (decide (Forall (λ tag, tag ∈ tags) supported_types)) as [Hall|Hnot].
  - rewrite Forall_forall in Hall.
    pose proof (submseteq_length _ _
                  (NoDup_submseteq _ _ supported_types_NoDup Hall)) as Hle.
    rewrite Hlength in Hle. vm_compute in Hle. lia.
  - apply not_Forall_Exists in Hnot; [|intros ?; apply _].
    apply Exists_exists in Hnot as (tag & Hin & Hout).
    specialize (Hthrow tag Hout (RString "x") (mkField None (Some tag) None None None)
                       ∅ eq_refl).
    unfold supported_types, scalar_types in Hin. simpl in Hin.
    repeat (apply elem_of_cons in Hin as [->|Hin]; [by vm_compute in Hthrow|]).
    by apply elem_of_nil in Hin.
Qed.

(** ** The document an update returns *)

Lemma convertDocument_id `{Host} fuel filePath fullFilePath data modelMap document :
  convertDocument fuel filePath fullFilePath data modelMap = Ok (Some document) →
  doc_id document = filePath.
Proof.
  unfold convertDocument.
  destruct (destructure data) as [[type fields]| | |]; simpl; [|done..].
  destruct (registry_get modelMap type) as [[model|]| | |]; simpl; [|done..].
  destruct (convertFields _ _ _ _); simpl; [|done..].
  destruct (member_name model); [|done]. by intros [= <-].
Qed.

(** C8. Whatever the operations, and whether the written record converts or
    the input document is returned in its place, the document
    [updateDocument] returns has the [id] of the input document. *)
Theorem updateDocument_keeps_id `{Host} fuel this document operations modelMap updated :
  updateDocument fuel this document operations modelMap = Ok updated →
  doc_id updated = doc_id document.
Proof.
  unfold updateDocument. intros Hupdate.
  apply bind_Ok in Hupdate as (data & _ & Hupdate).
  apply bind_Ok in Hupdate as (data' & _ & Hupdate).
  apply bind_Ok in Hupdate as (_ & _ & Hupdate).
  apply bind_Ok in Hupdate as (converted & Hconverted & [= <-]).
  destruct converted as [fresh|]; simpl; [|done].
  by apply convertDocument_id in Hconverted.
Qed.

(** A reorder and a set on the post of the example host. *)
Lemma updateDocument_keeps_id_witness :
  ∃ updated,
    @updateDocument example_host 3 (mkSource "/site" "content") example_document
      [OpReorder ["tags"] [1; 0]%Z;
       OpSet (DFValue "string" (RString "Hello")) ["title"] (string_field "title")]
      example_models = Ok updated
    ∧ doc_id updated = "content/x.json"
    ∧ doc_fields updated
      = [("title", DFValue "string" (RString "Hello"));
         ("tags", DFList [DFValue "string" (RString "b"); DFValue "string" (RString "a")])].
Proof.
  eexists. split; [by vm_compute|]. split; [|reflexivity].
  apply (@updateDocument_keeps_id example_host 3 (mkSource "/site" "content")
           example_document
           [OpReorder ["tags"] [1; 0]%Z;
            OpSet (DFValue "string" (RString "Hello")) ["title"] (string_field "title")]
           example_models).
  by vm_compute.
Defined.

(** The record of the file has no model: the input document comes back. *)
Example updateDocument_falls_back :
  @updateDocument untyped_host 3 (mkSource "/site" "content") example_document
    [OpSet (DFValue "string" (RString "Hello")) ["title"] (string_field "title")]
    example_models
  = Ok example_document.
Proof. reflexivity. Qed.

(** ** Paths: what [_.set] changes and what it keeps *)

Lemma parse_uint_Some key n : parse_uint key = Some n → key = string_of_N n.
Proof.
  unfold parse_uint. destruct (NilZero.uint_of_string key) as [d|]; [|done].
  destruct (String.eqb_spec (string_of_N (N.of_uint d)) key) as [Heq|]; [|done].
  by intros [= <-].
Qed.

Lemma array_index_inj a b i : array_index a = Some i → array_index b = Some i → a = b.
Proof.
  unfold array_index.
  destruct (parse_uint a) as [n|] eqn:Ha; [|done].
  destruct (parse_uint b) as [m|] eqn:Hb; [|by destruct (n <? _)%N].
  destruct (n <? _)%N; [|done]. destruct (m <? _)%N; [|done].
  intros [= <-] [= Hnm]. apply N2Nat.inj in Hnm as ->.
  apply parse_uint_Some in Ha, Hb. congruence.
Qed.

Lemma array_index_not_length key i : array_index key = Some i → key ≠ "length".
Proof. intros Hi ->. by vm_compute in Hi. Qed.

Lemma array_set_lookup_eq items i value : array_set items i value !! i = Some value.
Proof.
  unfold array_set. destruct (Nat.ltb_spec i (length items)).
  - by apply list_lookup_insert_eq.
  - rewrite lookup_app_r by done. rewrite lookup_app_r by (rewrite length_replicate; lia).
    rewrite length_replicate. by replace (i - length items - (i - length items)) with 0 by lia.
Qed.


Lemma names_entry_container nested key : names_entry nested key → isObject nested = true.
Proof. by destruct nested. Qed.

Lemma isObject_not_nullish v : isObject v = true → nullish v = false.
Proof. by destruct v. Qed.

(** A read of an index of an array gives the element, or [undefined]. *)
Lemma property_get_index items key i :
  array_index key = Some i →
  property_get (RArray items) key = Ok (default RUndefined (items !! i)).
Proof.
  intros Hi. unfold property_get, inherits. cbn [nullish own_property]. rewrite Hi.
  destruct (items !! i); [done|]. cbn [default]. by rewrite bool_decide_true.
Qed.

Lemma property_get_entry entries key :
  property_get (RObject entries) key
  = match obj_get entries key with
    | Some value => Ok value
    | None => if bool_decide (key ∈ Object_prototype_names) then Unmodelled
              else Ok RUndefined
    end.
Proof. reflexivity. Qed.

(** Only an entry of an object and an element of an array are containers. *)
Lemma property_get_container nested key value :
  property_get nested key = Ok value → isObject value = true → names_entry nested key.
Proof.
  unfold property_get.
  destruct nested as [| | | |s|items|entries]; simpl; try done.
  - destruct (array_index key) as [i|]; simpl.
    + destruct (chars s !! i) as [c|] eqn:Hc; [|by intros [= <-]].
      unfold chars in Hc. apply list_lookup_fmap_Some in Hc as (? & -> & _).
      by intros [= <-].
    + destruct (String.eqb key "length"); [by intros [= <-]|done].
  - destruct (array_index key) as [i|]; [done|]. simpl.
    destruct (String.eqb key "length"); [by intros [= <-]|done].
Qed.

(** A write of an entry of an object or of an element of an array goes
    through, and a read finds the value written. *)
Lemma assignValue_names nested key value :
  names_entry nested key →
  ∃ written, assignValue nested key value = Ok written.
Proof.
  destruct nested as [| | | | |items|entries]; simpl; try done; [|by eauto].
  intros [i Hi]. rewrite Hi. eauto.
Qed.

Lemma assignValue_read nested key value written :
  names_entry nested key →
  assignValue nested key value = Ok written →
  isObject written = true ∧ property_get written key = Ok value.
Proof.
  destruct nested as [| | | | |items|entries]; simpl; try done.
  - intros [i Hi]. rewrite Hi. intros [= <-]. split; [done|].
    rewrite (property_get_index _ _ i) by done. by rewrite array_set_lookup_eq.
  - intros _ [= <-]. split; [done|]. rewrite property_get_entry.
    by rewrite obj_get_set_eq.
Qed.


(** A path that leads to a container leads through containers. *)
Lemma baseGet_container path : ∀ object key value,
  baseGet object (key :: path) = Ok value → isObject value = true →
  isObject object = true
  ∧ ∃ child, property_get object key = Ok child ∧ isObject child = true
             ∧ names_entry object key ∧ baseGet child path = Ok value.
Proof.
  induction path as [|next path IH]; intros object key value; cbn [baseGet].
  - destruct (nullish object) eqn:Hn; [by intros [= <-]|]. intros Hget Hc.
    apply bind_Ok in Hget as (child & Hchild & [= ->]).
    pose proof (property_get_container _ _ _ Hchild Hc) as Hkey.
    split; [by eapply names_entry_container|]. by exists value.
  - destruct (nullish object) eqn:Hn; [by intros [= <-]|]. intros Hget Hc.
    apply bind_Ok in Hget as (child & Hchild & Hrest).
    destruct (IH child next value Hrest Hc) as (Hcontainer & _).
    pose proof (property_get_container _ _ _ Hchild Hcontainer) as Hkey.
    split; [by eapply names_entry_container|]. by exists child.
Qed.

(** The step of [baseSet] through a key that is not the last. *)
Lemma baseSet_step nested key next rest value objValue :
  refused_key key = false → names_entry nested key →
  property_get nested key = Ok objValue →
  baseSet nested (key :: next :: rest) value
  = written ← baseSet (if isObject objValue then objValue
                        else if isIndex next then RArray [] else RObject [])
                       (next :: rest) value;
    assignValue nested key written.
Proof.
  intros Hrefused Hkey Hget. cbn [baseSet]. rewrite Hrefused, Hget.
  cbn [mbind result_bind].
  by destruct (assignValue_names nested key
                 (if isObject objValue then objValue
                  else if isIndex next then RArray [] else RObject []) Hkey) as [? ->].
Qed.

(** After [_.set] on a path that can be written the path holds the
    value. *)
Lemma baseSet_writable path : ∀ nested value,
  writable nested path →
  ∃ written, baseSet nested path value = Ok written
             ∧ isObject written = true ∧ baseGet written path = Ok value.
Proof.
  induction path as [|key rest IH]; intros nested value; [done|].
  intros (Hkey & Hrefused & Hrest).
  destruct rest as [|next rest].
  - cbn [baseSet]. rewrite Hrefused.
    destruct (assignValue_names nested key value Hkey) as [written Hwritten].
    destruct (assignValue_read _ _ _ _ Hkey Hwritten) as [Hc Hread].
    exists written. split_and!; [done..|].
    cbn [baseGet]. rewrite isObject_not_nullish by done. by rewrite Hread.
  - destruct (property_get nested key) as [objValue| | |] eqn:Hget; [|done..].
    rewrite (baseSet_step _ _ _ _ _ objValue) by done.
    destruct (IH _ value Hrest) as (inner & -> & Hinner & Hpath).
    cbn [mbind result_bind].
    destruct (assignValue_names nested key inner Hkey) as [written Hwritten].
    destruct (assignValue_read _ _ _ _ Hkey Hwritten) as [Hc Hread].
    exists written. split_and!; [done..|].
    cbn [baseGet]. rewrite isObject_not_nullish by done. rewrite Hread. done.
Qed.

(** A path to a container, without a refused key, can be written. *)
Lemma container_writable path : ∀ object value,
  path ≠ [] → refused_path path = false →
  baseGet object path = Ok value → isObject value = true →
  writable object path.
Proof.
  induction path as [|key rest IH]; intros object value; [done|].
  intros _ Hrefused Hget Hc. cbn [refused_path existsb] in Hrefused.
  apply orb_false_iff in Hrefused as [Hkey Hrest].
  destruct (baseGet_container _ _ _ _ Hget Hc) as (_ & child & Hchild & Hcc & Hnames & Hpath).
  cbn [writable]. split_and!; [done..|].
  destruct rest as [|next rest]; [done|].
  rewrite Hchild, Hcc. by apply (IH child value).
Qed.

Lemma lodash_get_set object path value container :
  refused_path path = false →
  lodash_get object path = Ok container → isObject container = true →
  ∃ written, lodash_set object path value = Ok written
             ∧ lodash_get written path = Ok value.
Proof.
  destruct path as [|key path]; [by intros _ [= <-]|].
  unfold lodash_get, lodash_set. intros Hrefused Hget Hc.
  destruct (baseGet_container _ _ _ _ Hget Hc) as (-> & _).
  destruct (baseSet_writable (key :: path) object value) as (written & Hset & _ & Hread).
  { by eapply container_writable. }
  by exists written.
Qed.



(** What a [reorder] does on a path that holds an array. *)
Lemma reorder_array modelMap data fieldPath order arr :
  lodash_get data fieldPath = Ok (RArray arr) →
  applyUpdateOperation modelMap data (OpReorder fieldPath order)
  = data' ← lodash_set data fieldPath (RArray (map (element_at arr) order));
    if repeats_object arr order then Unmodelled else Ok data'.
Proof. intros Harr. cbn [applyUpdateOperation]. by rewrite Harr. Qed.










(** ** The reverse mapper *)

Lemma mapUpdateOperationToValue_object_eq fields modelMap modelField :
  mapUpdateOperationToValue (DFObject fields) modelMap modelField
  = _ ← for_of (objectChild (λ child spec, mapUpdateOperationToValue child modelMap spec)
                            modelField) fields tt;
    Ok (RObject []).
Proof. reflexivity. Qed.

Lemma mapUpdateOperationToValue_model_eq modelName fields modelMap modelField :
  mapUpdateOperationToValue (DFModel modelName fields) modelMap modelField
  = for_of (modelChild (λ child spec, mapUpdateOperationToValue child modelMap spec)
                       (registered modelMap modelName)) fields (RObject []).
Proof. reflexivity. Qed.

Lemma mapUpdateOperationToValue_list_eq items modelMap modelField :
  mapUpdateOperationToValue (DFList items) modelMap modelField
  = mapped ← mapM (λ item, mapUpdateOperationToValue item modelMap
                             (listItemModelField_of (listItemsModel_of modelField) item))
                  items;
    Ok (RArray mapped).
Proof. reflexivity. Qed.

Lemma objectChild_never_returns map modelField entry : ∀ u, objectChild map modelField tt entry ≠ Ok u.
Proof.
  intros u. destruct entry as [fieldName child]. unfold objectChild.
  destruct modelField as [spec|]; simpl; [|done]. by destruct (map child _).
Qed.

(** An object-typed update field with a child never maps to a value: the
    callback throws on its first call. *)
Lemma mapUpdateOperationToValue_object_child fieldName child rest modelMap modelField :
  ∀ value,
    mapUpdateOperationToValue (DFObject ((fieldName, child) :: rest)) modelMap modelField
    ≠ Ok value.
Proof.
  intros value. rewrite mapUpdateOperationToValue_object_eq. cbn [for_of].
  intros Hmap. apply bind_Ok in Hmap as (? & Hfor & _).
  apply bind_Ok in Hfor as ([] & Hchild & _).
  by apply objectChild_never_returns in Hchild.
Qed.

(** C2 on the code.  The object-typed update [{ keywords: 'rocq' }] of the
    field [meta], whose spec declares [keywords]: the claim gives the raw
    mapping [{ keywords: 'rocq' }], the code throws the [ReferenceError] of
    reading [result] before its declaration. *)
Theorem mapUpdateOperationToValue_object_throws :
  mapUpdateOperationToValue (DFObject [("keywords", DFValue "string" (RString "rocq"))])
    example_models (Some meta_field)
  = Throw (ReferenceError "result").
Proof. reflexivity. Qed.

(** The case [model] next to it does write every child. *)
Lemma mapUpdateOperationToValue_model_example :
  mapUpdateOperationToValue (DFModel "person" [("name", DFValue "string" (RString "Bob"))])
    example_models (Some author_field)
  = Ok (RObject [("name", RString "Bob")]).
Proof. reflexivity. Qed.

(** ** The round trip *)

Lemma mapUpdateOperationToValue_scalar type value modelMap modelField :
  type ∈ scalar_types →
  mapUpdateOperationToValue (DFValue type value) modelMap modelField = Ok value.
Proof.
  unfold scalar_types. intros Hin.
  repeat (apply elem_of_cons in Hin as [->|Hin]; [reflexivity|]).
  by apply elem_of_nil in Hin.
Qed.

Lemma mapM_result_Forall2 {A B : Type} (f : A → result B) xs ys :
  Forall2 (λ x y, f x = Ok y) xs ys → mapM f xs = Ok ys.
Proof.
  induction 1 as [|x y xs ys Hxy _ IH]; [done|].
  cbn [mapM]. rewrite Hxy. simpl. by rewrite IH.
Qed.

Lemma Forall_exists_Forall2 {A B : Type} (R : A → B → Prop) xs :
  Forall (λ x, ∃ y, R x y) xs → ∃ ys, Forall2 R xs ys.
Proof.
  induction 1 as [|x xs [y Hxy] _ [ys IH]]; [by exists []|].
  exists (y :: ys). by constructor.
Qed.

Lemma forallb_Forall {A : Type} (p : A → bool) xs :
  forallb p xs = true → Forall (λ x, p x = true) xs.
Proof.
  induction xs as [|x xs IH]; simpl; [done|].
  intros [Hx Hxs]%andb_true_iff. constructor; auto.
Qed.

Lemma filter_all {A : Type} (p : A → bool) xs :
  Forall (λ x, p x = true) xs → List.filter p xs = xs.
Proof. induction 1 as [|x xs Hx _ IH]; simpl; [done|]. by rewrite Hx, IH. Qed.

Lemma lossless_eq modelMap fieldValue modelField :
  lossless modelMap fieldValue modelField
  = match field_type modelField with
    | None => false
    | Some type =>
        if bool_decide (type ∈ scalar_types) || String.eqb type "reference" then true
        else if String.eqb type "list" then
          match fieldValue with
          | RArray values =>
              forallb (λ item, lossless modelMap item (itemsModel_of modelField)) values
          | _ => false
          end
        else if String.eqb type "model" then
          match fieldValue, field_models modelField with
          | RObject entries, Some (first :: _) =>
              match modelMap !! first with
              | Some model =>
                  bool_decide (NoDup entries.*1)
                  && forallb (λ kv,
                                negb (String.eqb kv.1 "id" || String.eqb kv.1 "type")
                                && plain_key kv.1
                                && negb (refused_key kv.1)
                                && truthy kv.2
                                && match find_field (model_fields model) kv.1 with
                                   | Some spec => lossless modelMap kv.2 spec
                                   | None => false
                                   end) entries
              | None => false
              end
          | _, _ => false
          end
        else false
    end.
Proof. by destruct fieldValue. Qed.

Lemma depth_items items fuel :
  depth (RArray items) < S fuel → Forall (λ item, depth item < fuel) items.
Proof.
  simpl. intros Hd. assert (list_max (map depth items) ≤ fuel - 1) as Hle by lia.
  apply list_max_le in Hle. apply List.Forall_map in Hle.
  eapply Forall_impl; [exact Hle|]. simpl. intros item Hitem. lia.
Qed.

Lemma depth_entries entries fuel :
  depth (RObject entries) < S fuel → Forall (λ kv, depth kv.2 < fuel) entries.
Proof.
  simpl. intros Hd.
  assert (list_max (map (λ kv : string * raw, depth kv.2) entries) ≤ fuel - 1) as Hle by lia.
  apply list_max_le in Hle. apply List.Forall_map in Hle.
  eapply Forall_impl; [exact Hle|]. simpl. intros item Hitem. lia.
Qed.

Lemma refused_key_proto key : refused_key key = false → String.eqb key "__proto__" = false.
Proof. unfold refused_key. by destruct (String.eqb key "__proto__"). Qed.

Lemma convertFields_loop_kept convert modelFields entries typed acc :
  Forall2 (λ (kv : string * raw) (kd : string * DocumentField),
             kd.1 = kv.1 ∧ refused_key kv.1 = false
             ∧ ∃ spec, find (has_name kv.1) (default [] modelFields) = Some spec
                       ∧ truthy kv.2 = true
                       ∧ convert kv.2 spec = Ok (Some kd.2)) entries typed →
  NoDup (acc.*1 ++ entries.*1) →
  for_of (convertField convert modelFields) entries acc = Ok (acc ++ typed).
Proof.
  intros Hall. revert acc.
  induction Hall
    as [|[k x] [k' d] entries typed (Hk & Hrefused & spec & Hfind & Htruthy & Hconv) _ IH];
    intros acc Hnodup.
  - by rewrite app_nil_r.
  - simpl in Hk, Hrefused, Hfind, Htruthy, Hconv. subst k'. cbn [for_of].
    rewrite (convertField_reached _ _ _ _ _ spec) by done. rewrite Hconv. simpl.
    rewrite (refused_key_proto k) by done.
    simpl in Hnodup.
    rewrite obj_set_fresh.
    + rewrite IH; [by rewrite <- app_assoc|].
      by rewrite fmap_app, <- app_assoc.
    + apply NoDup_app in Hnodup as (_ & Hdisjoint & _).
      intros Hin. apply (Hdisjoint k Hin). apply elem_of_cons. by left.
Qed.

Lemma modelChild_Ok map childModel acc fieldName child value :
  plain_key fieldName = true → refused_key fieldName = false →
  (∀ spec, map child spec = Ok value) →
  modelChild map childModel (RObject acc) (fieldName, child)
  = Ok (RObject (obj_set acc fieldName value)).
Proof.
  intros Hplain Hrefused Hmap. unfold modelChild. rewrite Hmap. simpl.
  unfold castPath, isKey. unfold plain_key in Hplain. rewrite Hplain.
  unfold lodash_set. cbn [isObject orb baseSet]. by rewrite Hrefused.
Qed.

Lemma modelChild_loop map childModel entries typed acc :
  Forall2 (λ (kv : string * raw) (kd : string * DocumentField),
             kd.1 = kv.1 ∧ plain_key kv.1 = true ∧ refused_key kv.1 = false
             ∧ ∀ spec, map kd.2 spec = Ok kv.2) entries typed →
  NoDup (acc.*1 ++ entries.*1) →
  for_of (modelChild map childModel) typed (RObject acc) = Ok (RObject (acc ++ entries)).
Proof.
  intros Hall. revert acc.
  induction Hall as [|[k x] [k' d] entries typed (Hk & Hplain & Hrefused & Hmap) _ IH];
    intros acc Hnodup.
  - by rewrite app_nil_r.
  - simpl in Hk, Hplain, Hrefused, Hmap. subst k'. cbn [for_of].
    rewrite (modelChild_Ok _ _ _ _ _ x) by done. simpl.
    simpl in Hnodup.
    rewrite obj_set_fresh.
    + rewrite IH; [by rewrite <- app_assoc|].
      by rewrite fmap_app, <- app_assoc.
    + apply NoDup_app in Hnodup as (_ & Hdisjoint & _).
      intros Hin. apply (Hdisjoint k Hin). apply elem_of_cons. by left.
Qed.

Lemma roundtrip_any_spec `{Host} modelMap fuel :
  ∀ fieldValue modelField,
    lossless modelMap fieldValue modelField = true →
    depth fieldValue < fuel →
    ∃ documentField,
      convertFieldType fuel fieldValue modelField modelMap = Ok (Some documentField)
      ∧ ∀ spec, mapUpdateOperationToValue documentField modelMap spec = Ok fieldValue.
Proof.
  induction fuel as [|fuel IH]; intros fieldValue modelField Hlossless Hdepth; [lia|].
  rewrite lossless_eq in Hlossless.
  destruct (field_type modelField) as [type|] eqn:Htype; [|done].
  destruct (bool_decide (type ∈ scalar_types)) eqn:Hscalar.
  { apply bool_decide_eq_true in Hscalar. exists (DFValue type fieldValue). split.
    - by apply convertFieldType_scalar.
    - intros spec. by apply mapUpdateOperationToValue_scalar. }
  simpl in Hlossless. destruct (String.eqb_spec type "reference") as [->|_].
  { exists (DFReference "document" fieldValue). split; [|done].
    by apply convertFieldType_reference. }
  destruct (String.eqb_spec type "list") as [->|_].
  { destruct fieldValue as [| | | | |values|]; try done.
    apply forallb_Forall in Hlossless. apply depth_items in Hdepth.
    destruct (Forall_exists_Forall2
                (λ item typed,
                   convertFieldType fuel item (itemsModel_of modelField) modelMap
                   = Ok (Some typed)
                   ∧ ∀ spec, mapUpdateOperationToValue typed modelMap spec = Ok item)
                values) as [items Hitems].
    { eapply Forall_impl; [exact (proj2 (Forall_and _ _) (conj Hlossless Hdepth))|].
      simpl. intros item [Hitem Hd]. by apply IH. }
    exists (DFList items). split.
    - rewrite convertFieldType_case_list by done. simpl.
      rewrite (pushItem_loop _ values (Some <$> items)).
      + simpl. f_equal. f_equal. f_equal. clear. induction items; simpl; [done|].
        by f_equal.
      + apply Forall2_fmap_r. eapply Forall2_impl; [exact Hitems|]. by intros ?? [? _].
    - intros spec. rewrite mapUpdateOperationToValue_list_eq.
      rewrite (mapM_result_Forall2 _ items values); [done|].
      apply Forall2_flip. eapply Forall2_impl; [exact Hitems|]. intros ?? [_ Hmap]. apply Hmap. }
  destruct (String.eqb_spec type "model") as [->|_]; [|done].
  destruct fieldValue as [| | | | | |entries]; try done.
  destruct (field_models modelField) as [[|first others]|] eqn:Hmodels; try done.
  destruct (modelMap !! first) as [model|] eqn:Hmodel; [|done].
  apply andb_true_iff in Hlossless as [Hnodup Hentries].
  apply bool_decide_eq_true in Hnodup.
  apply forallb_Forall in Hentries. apply depth_entries in Hdepth.
  assert (Forall (λ kv : string * raw,
                    negb (String.eqb kv.1 "id" || String.eqb kv.1 "type") = true) entries)
    as Hkeys.
  { eapply Forall_impl; [exact Hentries|]. simpl. intros kv Hkv.
    by repeat (apply andb_true_iff in Hkv as [Hkv ?]). }
  assert (obj_get entries "type" = None) as Htypekey.
  { apply obj_get_None. intros ([k x] & Hk & Hin)%list_elem_of_fmap.
    simpl in Hk. subst k. rewrite Forall_forall in Hkeys. specialize (Hkeys _ Hin).
    by vm_compute in Hkeys. }
  destruct (Forall_exists_Forall2
              (λ (kv : string * raw) (kd : string * DocumentField),
                 kd.1 = kv.1 ∧ plain_key kv.1 = true ∧ refused_key kv.1 = false
                 ∧ (∃ spec, find (has_name kv.1) (default [] (model_fields model)) = Some spec
                            ∧ truthy kv.2 = true
                            ∧ convertFieldType fuel kv.2 spec modelMap = Ok (Some kd.2))
                 ∧ ∀ spec, mapUpdateOperationToValue kd.2 modelMap spec = Ok kv.2)
              entries) as [typed Htyped].
  { eapply Forall_impl; [exact (proj2 (Forall_and _ _) (conj Hentries Hdepth))|].
    simpl. intros [k x] [Hkv Hd]. simpl in *.
    repeat (apply andb_true_iff in Hkv as [Hkv ?]).
    unfold find_field in *.
    destruct (find (has_name k) (default [] (model_fields model))) as [spec|] eqn:Hfind;
      [|done].
    destruct (IH x spec) as (typed & Hconv & Hmap); [done..|].
    exists (k, typed). simpl. split_and!; [done | done | by apply negb_true_iff | | done].
    by exists spec. }
  exists (DFModel (model_name model) typed). split.
  - rewrite convertFieldType_case_model by done. rewrite destructure_record.
    rewrite Htypekey, (filter_all _ _ Hkeys). simpl.
    unfold modelType_of. rewrite Hmodels. simpl.
    unfold registry_get. cbn [toPropertyKey mbind result_bind].
    rewrite (registered_own _ _ model) by done. cbn [member_fields member_name].
    unfold convertFields, convertFields_with. cbn [Object_entries mbind result_bind].
    rewrite (convertFields_loop_kept _ _ entries typed []); [done| |done].
    eapply Forall2_impl; [exact Htyped|]. by intros ?? (? & _ & ? & ? & _).
  - intros spec. rewrite mapUpdateOperationToValue_model_eq.
    rewrite (modelChild_loop _ _ entries typed []); [done| |done].
    eapply Forall2_impl; [exact Htyped|]. by intros ?? (? & ? & ? & _ & ?).
Qed.

(** C1, as the code has it.  A raw value the converter keeps whole -- of a
    scalar-like or reference type, an array of such values, or the record
    of a model found by the spec's first model name, without [id] and
    [type] and with only truthy, declared fields of these kinds under plain
    keys other than [__proto__], [constructor] and [prototype], which
    [_.set] refuses -- converts, given the call depth its nesting needs, to
    a typed field that the reverse mapper maps back to that very value. *)
Theorem roundtrip_lossless `{Host} modelMap fuel fieldValue modelField :
  lossless modelMap fieldValue modelField = true →
  depth fieldValue < fuel →
  ∃ documentField,
    convertFieldType fuel fieldValue modelField modelMap = Ok (Some documentField)
    ∧ mapUpdateOperationToValue documentField modelMap (Some modelField) = Ok fieldValue.
Proof.
  intros Hlossless Hdepth.
  destruct (roundtrip_any_spec modelMap fuel fieldValue modelField Hlossless Hdepth)
    as (documentField & Hconvert & Hmap).
  exists documentField. split; [done|]. apply Hmap.
Qed.

(** A list of two authors goes to typed fields and back. *)
Lemma roundtrip_lossless_witness :
  ∃ documentField,
    @convertFieldType example_host 3 (RArray example_authors_kept) authors_field
      example_models = Ok (Some documentField)
    ∧ mapUpdateOperationToValue documentField example_models (Some authors_field)
      = Ok (RArray example_authors_kept).
Proof.
  apply (@roundtrip_lossless example_host example_models 3
           (RArray example_authors_kept) authors_field).
  - by vm_compute.
  - vm_compute. lia.
Defined.

(** C1, as stated: the record [{ type: 'person', name: 'Bob' }] of the
    model-typed field [author] converts to the model field of [person], and
    the reverse mapper maps that to [{ name: 'Bob' }], which is not
    deep-equal to the record: its [type] is gone. *)
Lemma roundtrip_counterexample :
  @convertFieldType example_host 2 example_tagged_author author_field example_models
  = Ok (Some (DFModel "person" [("name", DFValue "string" (RString "Bob"))]))
  ∧ mapUpdateOperationToValue
      (DFModel "person" [("name", DFValue "string" (RString "Bob"))])
      example_models (Some author_field)
    = Ok example_author
  ∧ isEqual example_author example_tagged_author = false.
Proof. split_and!; reflexivity. Qed.

(** ** The scenarios of the specification *)

Example convertDocument_post :
  @convertDocument example_host 2 "content/x.json" "/site/content/x.json"
    (RObject [("id", RString "x"); ("type", RString "post"); ("title", RString "Hi");
              ("tags", RArray [RString "a"; RString "b"])])
    example_models
  = Ok (Some {| doc_type := "document";
                doc_id := "content/x.json";
                doc_modelName := "post";
                doc_manageUrl := "";
                doc_status := "published";
                doc_context := [];
                doc_createdAt := "2024-01-01T00:00:00.000Z";
                doc_updatedAt := "2024-01-01T00:00:00.000Z";
                doc_fields :=
                  [("title", DFValue "string" (RString "Hi"));
                   ("tags", DFList [DFValue "string" (RString "a");
                                    DFValue "string" (RString "b")])] |}).
Proof. reflexivity. Qed.

Example convertFieldType_image :
  @convertFieldType example_host 1 (RString "/img/cat.png")
    (mkField (Some "picture") (Some "image") None None None) example_models
  = Ok (Some (DFImage [("title", DFValue "string" (RString "cat"));
                       ("url", DFValue "string" (RString "/img/cat.png"))])).
Proof. reflexivity. Qed.

Example convertFieldType_unsupported_tag :
  @convertFieldType example_host 1 (RString "x")
    (mkField (Some "body") (Some "unsupported") None None None) example_models
  = Throw (UnsupportedType (Some "unsupported")).
Proof. reflexivity. Qed.

(** ** What the round trip loses

    Each condition of [lossless] on a record is needed: a falsy or an
    undeclared field is skipped by [convertFields], a list item of a model
    the registry does not hold is dropped, a field name with a dot is
    written back by [_.set] as a nested path, and a field named
    [constructor] is not written back at all. *)

Example roundtrip_loses_skipped_fields :
  @convertFieldType example_host 2
    (RObject [("name", RString "Bob"); ("nickname", RString ""); ("age", RNumber (Num 41))])
    author_field example_models
  = Ok (Some (DFModel "person" [("name", DFValue "string" (RString "Bob"))]))
  ∧ mapUpdateOperationToValue
      (DFModel "person" [("name", DFValue "string" (RString "Bob"))])
      example_models (Some author_field)
    = Ok (RObject [("name", RString "Bob")]).
Proof. split; reflexivity. Qed.

Example roundtrip_loses_unresolved_items :
  @convertFieldType example_host 3 (RArray example_authors) authors_field example_models
  = Ok (Some (DFList [DFModel "person" [("name", DFValue "string" (RString "Bob"))];
                      DFModel "person" [("name", DFValue "string" (RString "Al"))]]))
  ∧ mapUpdateOperationToValue
      (DFList [DFModel "person" [("name", DFValue "string" (RString "Bob"))];
               DFModel "person" [("name", DFValue "string" (RString "Al"))]])
      example_models (Some authors_field)
    = Ok (RArray example_authors_kept).
Proof. split; reflexivity. Qed.

Example roundtrip_nests_dotted_names :
  mapUpdateOperationToValue (DFModel "seo" [("og.title", DFValue "string" (RString "Hi"))])
    example_models None
  = Ok (RObject [("og", RObject [("title", RString "Hi")])]).
Proof. reflexivity. Qed.

Example roundtrip_loses_refused_names :
  @convertFieldType example_host 2 (RObject [("constructor", RString "Bob")])
    (mkField (Some "author") (Some "model") None None (Some ["builder"]))
    {[ "builder" := mkModel "builder" (Some [string_field "constructor"]) ]}
  = Ok (Some (DFModel "builder" [("constructor", DFValue "string" (RString "Bob"))]))
  ∧ mapUpdateOperationToValue
      (DFModel "builder" [("constructor", DFValue "string" (RString "Bob"))])
      {[ "builder" := mkModel "builder" (Some [string_field "constructor"]) ]}
      (Some (mkField (Some "author") (Some "model") None None (Some ["builder"])))
    = Ok (RObject []).
Proof. split; reflexivity. Qed.

(** * Further properties of the update operations *)

Lemma splice_at arr (i deleteCount : nat) inserted :
  i ≤ length arr →
  splice arr (Z.of_nat i) deleteCount inserted
  = take i arr ++ inserted ++ drop (i + deleteCount) arr.
Proof.
  intros Hi. unfold splice.
  destruct (Z.ltb_spec (Z.of_nat i) 0) as [Hneg|_]; [lia|].
  by replace (Z.to_nat (Z.of_nat i `min` Z.of_nat (length arr))) with i by lia.
Qed.

Lemma splice_past_end arr (start : Z) deleteCount inserted :
  (Z.of_nat (length arr) ≤ start)%Z →
  splice arr start deleteCount inserted = arr ++ inserted.
Proof.
  intros Hstart. unfold splice.
  destruct (Z.ltb_spec start 0) as [Hneg|_]; [lia|].
  replace (Z.to_nat (start `min` Z.of_nat (length arr))) with (length arr) by lia.
  rewrite firstn_all. rewrite drop_ge by lia. by rewrite app_nil_r.
Qed.

Lemma splice_before_start arr (start : Z) inserted :
  (start ≤ - Z.of_nat (length arr))%Z → (start < 0)%Z →
  splice arr start 0 inserted = inserted ++ arr.
Proof.
  intros Hstart Hneg. unfold splice.
  destruct (Z.ltb_spec start 0) as [_|Hpos]; [|lia].
  by replace (Z.to_nat ((Z.of_nat (length arr) + start) `max` 0)) with 0 by lia.
Qed.

Lemma splice_insert_remove arr (i : nat) value :
  i ≤ length arr →
  splice (splice arr (Z.of_nat i) 0 [value]) (Z.of_nat i) 1 [] = arr.
Proof.
  intros Hi. rewrite (splice_at arr) by done. rewrite Nat.add_0_r.
  rewrite splice_at by (rewrite length_app, length_take; simpl; lia).
  rewrite take_app_le by (rewrite length_take; lia).
  rewrite take_take. replace (i `min` i) with i by lia.
  rewrite drop_app_ge by (rewrite length_take; lia).
  rewrite length_take. replace (i + 1 - i `min` length arr) with 1 by lia.
  simpl. rewrite drop_0. apply take_drop.
Qed.

(** What [insert] and [remove] do on a path that holds an array. *)
Lemma insert_array modelMap data item fieldPath modelField index arr value :
  lodash_get data fieldPath = Ok (RArray arr) →
  mapUpdateOperationToValue item modelMap (Some modelField) = Ok value →
  applyUpdateOperation modelMap data (OpInsert item fieldPath modelField index)
  = lodash_set data fieldPath (RArray (splice arr (default 0%Z index) 0 [value])).
Proof. intros Harr Hvalue. cbn [applyUpdateOperation]. by rewrite Hvalue, Harr. Qed.

Lemma remove_array modelMap data fieldPath index arr :
  lodash_get data fieldPath = Ok (RArray arr) →
  applyUpdateOperation modelMap data (OpRemove fieldPath index)
  = lodash_set data fieldPath (RArray (splice arr index 1 [])).
Proof. intros Harr. cbn [applyUpdateOperation]. by rewrite Harr. Qed.

(** X1. An [insert] at an index within the array (its length included), on
    a path without a key that [_.set] refuses, puts the mapped item at that
    index, lengthens the array by one and keeps the elements before and
    after it in their order. *)
Theorem insert_places_item modelMap data item fieldPath modelField (i : nat) arr value :
  lodash_get data fieldPath = Ok (RArray arr) →
  refused_path fieldPath = false →
  mapUpdateOperationToValue item modelMap (Some modelField) = Ok value →
  i ≤ length arr →
  ∃ data' arr',
    applyUpdateOperation modelMap data
      (OpInsert item fieldPath modelField (Some (Z.of_nat i))) = Ok data'
    ∧ lodash_get data' fieldPath = Ok (RArray arr')
    ∧ length arr' = S (length arr)
    ∧ arr' !! i = Some value
    ∧ take i arr' = take i arr
    ∧ drop (S i) arr' = drop i arr.
Proof.
  intros Harr Hrefused Hvalue Hi.
  destruct (lodash_get_set data fieldPath (RArray (take i arr ++ [value] ++ drop i arr))
              (RArray arr) Hrefused Harr eq_refl) as (data' & Hset & Hget).
  exists data', (take i arr ++ [value] ++ drop i arr).
  split_and!.
  - rewrite (insert_array _ _ _ _ _ _ arr value) by done. simpl.
    rewrite splice_at by done. by rewrite Nat.add_0_r.
  - done.
  - rewrite !length_app, length_take, length_drop. simpl. lia.
  - rewrite lookup_app_r by (rewrite length_take; lia).
    rewrite length_take. by replace (i - i `min` length arr) with 0 by lia.
  - rewrite take_app_le by (rewrite length_take; lia).
    rewrite take_take. by replace (i `min` i) with i by lia.
  - rewrite drop_app_ge by (rewrite length_take; lia).
    rewrite length_take. by replace (S i - i `min` length arr) with 1 by lia.
Qed.

Lemma insert_places_item_witness :
  ∃ data' arr',
    applyUpdateOperation example_models
      (RObject [("tags", RArray [RString "a"; RString "c"])])
      (OpInsert (DFValue "string" (RString "b")) ["tags"] tags_field (Some (Z.of_nat 1)))
    = Ok data'
    ∧ lodash_get data' ["tags"] = Ok (RArray arr')
    ∧ length arr' = 3
    ∧ arr' !! 1 = Some (RString "b")
    ∧ take 1 arr' = [RString "a"]
    ∧ drop 2 arr' = [RString "c"].
Proof.
  apply (insert_places_item example_models
           (RObject [("tags", RArray [RString "a"; RString "c"])])
           (DFValue "string" (RString "b")) ["tags"] tags_field 1
           [RString "a"; RString "c"] (RString "b") eq_refl eq_refl eq_refl).
  simpl. lia.
Defined.

(** X2. On a path that holds an array and has no key that [_.set] refuses,
    [insert] takes any index: without one the item comes first, at or past
    the length it comes last, and at or before minus the length it comes
    first. *)
Theorem insert_clamps_index modelMap data item fieldPath modelField index arr value :
  lodash_get data fieldPath = Ok (RArray arr) →
  refused_path fieldPath = false →
  mapUpdateOperationToValue item modelMap (Some modelField) = Ok value →
  ∃ data' arr',
    applyUpdateOperation modelMap data (OpInsert item fieldPath modelField index) = Ok data'
    ∧ lodash_get data' fieldPath = Ok (RArray arr')
    ∧ (index = None → arr' = value :: arr)
    ∧ (∀ z, index = Some z → (Z.of_nat (length arr) ≤ z)%Z → arr' = arr ++ [value])
    ∧ (∀ z, index = Some z → (z < 0)%Z → (z ≤ - Z.of_nat (length arr))%Z →
            arr' = value :: arr).
Proof.
  intros Harr Hrefused Hvalue.
  destruct (lodash_get_set data fieldPath
              (RArray (splice arr (default 0%Z index) 0 [value]))
              (RArray arr) Hrefused Harr eq_refl) as (data' & Hset & Hget).
  exists data', (splice arr (default 0%Z index) 0 [value]).
  split_and!.
  - by rewrite (insert_array _ _ _ _ _ _ arr value).
  - done.
  - intros ->. simpl. by rewrite (splice_at arr 0 0) by lia.
  - intros z -> Hz. simpl. by apply splice_past_end.
  - intros z -> Hneg Hz. simpl. by rewrite splice_before_start.
Qed.

Lemma insert_clamps_index_witness :
  ∃ data' arr',
    applyUpdateOperation example_models
      (RObject [("tags", RArray [RString "a"; RString "b"])])
      (OpInsert (DFValue "string" (RString "z")) ["tags"] tags_field (Some 7%Z))
    = Ok data'
    ∧ lodash_get data' ["tags"] = Ok (RArray arr')
    ∧ arr' = [RString "a"; RString "b"; RString "z"].
Proof.
  destruct (insert_clamps_index example_models
              (RObject [("tags", RArray [RString "a"; RString "b"])])
              (DFValue "string" (RString "z")) ["tags"] tags_field (Some 7%Z)
              [RString "a"; RString "b"] (RString "z") eq_refl eq_refl eq_refl)
    as (data' & arr' & Happly & Hget & _ & Hlast & _).
  exists data', arr'. split_and!; [done | done |]. apply (Hlast 7%Z eq_refl). simpl. lia.
Defined.

(** X3. On a path that holds an array and has no key that [_.set] refuses,
    [remove] at an index within the array takes out exactly that element;
    at or past the length it takes out nothing and raises nothing; at [-1]
    it takes out the last element. *)
Theorem remove_takes_element modelMap data fieldPath index arr :
  lodash_get data fieldPath = Ok (RArray arr) →
  refused_path fieldPath = false →
  ∃ data' arr',
    applyUpdateOperation modelMap data (OpRemove fieldPath index) = Ok data'
    ∧ lodash_get data' fieldPath = Ok (RArray arr')
    ∧ (∀ i : nat, index = Z.of_nat i → i < length arr →
         arr' = take i arr ++ drop (S i) arr ∧ S (length arr') = length arr)
    ∧ ((Z.of_nat (length arr) ≤ index)%Z → arr' = arr)
    ∧ (index = (-1)%Z → arr' = take (length arr - 1) arr).
Proof.
  intros Harr Hrefused.
  destruct (lodash_get_set data fieldPath (RArray (splice arr index 1 []))
              (RArray arr) Hrefused Harr eq_refl) as (data' & Hset & Hget).
  exists data', (splice arr index 1 []).
  split_and!.
  - by rewrite (remove_array _ _ _ _ arr).
  - done.
  - intros i -> Hi. rewrite splice_at by lia. simpl.
    replace (i + 1) with (S i) by lia. split; [done|].
    rewrite length_app, length_take, length_drop. lia.
  - intros Hpast. rewrite splice_past_end by done. by rewrite app_nil_r.
  - intros ->. unfold splice. simpl.
    destruct arr as [|x arr]; [done|].
    replace (Z.to_nat ((Z.of_nat (length (x :: arr)) + -1) `max` 0))
      with (length (x :: arr) - 1) by (simpl; lia).
    rewrite drop_ge by (simpl; lia). by rewrite app_nil_r.
Qed.

Lemma remove_takes_element_witness :
  ∃ data' arr',
    applyUpdateOperation example_models
      (RObject [("tags", RArray [RString "a"; RString "b"; RString "c"])])
      (OpRemove ["tags"] (Z.of_nat 1)) = Ok data'
    ∧ lodash_get data' ["tags"] = Ok (RArray arr')
    ∧ arr' = [RString "a"; RString "c"].
Proof.
  destruct (remove_takes_element example_models
              (RObject [("tags", RArray [RString "a"; RString "b"; RString "c"])])
              ["tags"] (Z.of_nat 1) [RString "a"; RString "b"; RString "c"]
              eq_refl eq_refl)
    as (data' & arr' & Happly & Hget & Hin & _).
  exists data', arr'. split_and!; [done | done |].
  apply (Hin 1 eq_refl). simpl. lia.
Defined.

(** X4. On a path that holds an array and has no key that [_.set] refuses,
    an [insert] at an index within the array followed by a [remove] at the
    same index leaves the array as it was. *)
Theorem insert_then_remove modelMap data item fieldPath modelField (i : nat) arr value :
  lodash_get data fieldPath = Ok (RArray arr) →
  refused_path fieldPath = false →
  mapUpdateOperationToValue item modelMap (Some modelField) = Ok value →
  i ≤ length arr →
  ∃ data' data'',
    applyUpdateOperation modelMap data
      (OpInsert item fieldPath modelField (Some (Z.of_nat i))) = Ok data'
    ∧ applyUpdateOperation modelMap data' (OpRemove fieldPath (Z.of_nat i)) = Ok data''
    ∧ lodash_get data'' fieldPath = Ok (RArray arr).
Proof.
  intros Harr Hrefused Hvalue Hi.
  destruct (lodash_get_set data fieldPath (RArray (splice arr (Z.of_nat i) 0 [value]))
              (RArray arr) Hrefused Harr eq_refl) as (data' & Hset & Hget).
  destruct (lodash_get_set data' fieldPath
              (RArray (splice (splice arr (Z.of_nat i) 0 [value]) (Z.of_nat i) 1 []))
              (RArray (splice arr (Z.of_nat i) 0 [value])) Hrefused Hget eq_refl)
    as (data'' & Hset' & Hget').
  exists data', data''. split_and!.
  - by rewrite (insert_array _ _ _ _ _ _ arr value).
  - by rewrite (remove_array _ _ _ _ (splice arr (Z.of_nat i) 0 [value])).
  - by rewrite Hget', splice_insert_remove.
Qed.

Lemma insert_then_remove_witness :
  ∃ data' data'',
    applyUpdateOperation example_models
      (RObject [("tags", RArray [RString "a"; RString "c"])])
      (OpInsert (DFValue "string" (RString "b")) ["tags"] tags_field (Some (Z.of_nat 1)))
    = Ok data'
    ∧ applyUpdateOperation example_models data' (OpRemove ["tags"] (Z.of_nat 1)) = Ok data''
    ∧ lodash_get data'' ["tags"] = Ok (RArray [RString "a"; RString "c"]).
Proof.
  apply (insert_then_remove example_models
           (RObject [("tags", RArray [RString "a"; RString "c"])])
           (DFValue "string" (RString "b")) ["tags"] tags_field 1
           [RString "a"; RString "c"] (RString "b") eq_refl eq_refl eq_refl).
  simpl. lia.
Defined.

Lemma element_at_seq arr :
  map (element_at arr) (Z.of_nat <$> seq 0 (length arr)) = arr.
Proof.
  apply list_eq. intros k. rewrite list_lookup_fmap, list_lookup_fmap.
  destruct (decide (k < length arr)) as [Hk|Hk].
  - rewrite lookup_seq_lt by done. simpl. unfold element_at.
    destruct (Z.ltb_spec (Z.of_nat k) 0); [lia|]. rewrite Nat2Z.id.
    destruct (lookup_lt_is_Some_2 arr k Hk) as [x Hx]. by rewrite Hx.
  - rewrite lookup_seq_ge by lia. simpl. symmetry. apply lookup_ge_None_2. lia.
Qed.

(** X5. [reorder] does not check that [order] is a permutation.  On a
    path that holds an array and has no key that [_.set] refuses, and where
    [order] does not take an object or an array twice, the new array is as
    long as [order], an index outside the old array gives [undefined], and
    the order [0, 1, ...] of the old length leaves the array as it was. *)
Theorem reorder_takes_any_order modelMap data fieldPath order arr :
  lodash_get data fieldPath = Ok (RArray arr) →
  refused_path fieldPath = false →
  repeats_object arr order = false →
  ∃ data' arr',
    applyUpdateOperation modelMap data (OpReorder fieldPath order) = Ok data'
    ∧ lodash_get data' fieldPath = Ok (RArray arr')
    ∧ length arr' = length order
    ∧ (∀ k newIndex, order !! k = Some newIndex →
         (newIndex < 0 ∨ Z.of_nat (length arr) ≤ newIndex)%Z →
         arr' !! k = Some RUndefined)
    ∧ (order = Z.of_nat <$> seq 0 (length arr) → arr' = arr).
Proof.
  intros Harr Hrefused Hrepeats.
  destruct (lodash_get_set data fieldPath (RArray (map (element_at arr) order))
              (RArray arr) Hrefused Harr eq_refl) as (data' & Hset & Hget).
  exists data', (map (element_at arr) order).
  split_and!.
  - rewrite (reorder_array _ _ _ _ arr) by done. rewrite Hset. simpl. by rewrite Hrepeats.
  - done.
  - apply length_map.
  - intros k newIndex Hk Hout.
    transitivity (element_at arr <$> order !! k); [apply list_lookup_fmap|].
    rewrite Hk. simpl. f_equal.
    unfold element_at. destruct (Z.ltb_spec newIndex 0) as [|Hpos]; [done|].
    rewrite lookup_ge_None_2 by lia. done.
  - intros ->. apply element_at_seq.
Qed.

Lemma reorder_takes_any_order_witness :
  ∃ data' arr',
    applyUpdateOperation example_models
      (RObject [("tags", RArray [RString "a"; RString "b"])])
      (OpReorder ["tags"] [1; 1; 5]%Z) = Ok data'
    ∧ lodash_get data' ["tags"] = Ok (RArray arr')
    ∧ length arr' = 3
    ∧ arr' !! 2 = Some RUndefined.
Proof.
  destruct (reorder_takes_any_order example_models
              (RObject [("tags", RArray [RString "a"; RString "b"])])
              ["tags"] [1; 1; 5]%Z [RString "a"; RString "b"] eq_refl eq_refl eq_refl)
    as (data' & arr' & Happly & Hget & Hlength & Hout & _).
  exists data', arr'. split_and!; [done | done | done |].
  apply (Hout 2 5%Z eq_refl). simpl. lia.
Defined.

Lemma iterate_not_spreadable v : spreadable v = false → iterate v = Throw TypeError.
Proof. by destruct v. Qed.

(** X6. On a path that reads a value that is neither an array nor a string
    -- a missing path reads [undefined] -- [insert], [remove] and [reorder]
    throw a [TypeError].  An exception of an operation stops the update:
    [updateDocument] throws it, whatever the operations before it have
    done and whatever the operations that follow. *)
Theorem array_operation_needs_array `{Host} modelMap data fieldPath found :
  lodash_get data fieldPath = Ok found →
  spreadable found = false →
  (∀ item modelField index value,
     mapUpdateOperationToValue item modelMap (Some modelField) = Ok value →
     applyUpdateOperation modelMap data (OpInsert item fieldPath modelField index)
     = Throw TypeError)
  ∧ (∀ index, applyUpdateOperation modelMap data (OpRemove fieldPath index)
              = Throw TypeError)
  ∧ (∀ order, applyUpdateOperation modelMap data (OpReorder fieldPath order)
              = Throw TypeError)
  ∧ (∀ fuel this document loaded before operation after e,
       getFileData (path_join (rootDir this) (doc_id document)) = Ok loaded →
       for_of (applyUpdateOperation modelMap) before loaded = Ok data →
       applyUpdateOperation modelMap data operation = Throw e →
       updateDocument fuel this document (before ++ operation :: after) modelMap
       = Throw e).
Proof.
  intros Hfound Hvalue%iterate_not_spreadable. split_and!.
  - intros item modelField index value Hitem. cbn [applyUpdateOperation].
    rewrite Hitem, Hfound. simpl. by rewrite Hvalue.
  - intros index. cbn [applyUpdateOperation]. rewrite Hfound. simpl. by rewrite Hvalue.
  - intros order. cbn [applyUpdateOperation]. rewrite Hfound. simpl. by rewrite Hvalue.
  - intros fuel this document loaded before operation after e Hload Hbefore Hthrow.
    unfold updateDocument. rewrite Hload. cbn [mbind result_bind].
    rewrite for_of_app, Hbefore. cbn [mbind result_bind for_of]. by rewrite Hthrow.
Qed.

Lemma array_operation_needs_array_witness :
  @updateDocument example_host 3 (mkSource "/site" "content") example_document
    [OpSet (DFValue "string" (RString "Hello")) ["title"] (string_field "title");
     OpRemove ["authors"] 0%Z;
     OpSet (DFValue "string" (RString "Bye")) ["title"] (string_field "title")]
    example_models
  = Throw TypeError.
Proof.
  apply (proj2 (proj2 (proj2
           (@array_operation_needs_array example_host example_models
              (RObject [("id", RString "x"); ("type", RString "post");
                        ("title", RString "Hello");
                        ("tags", RArray [RString "a"; RString "b"])])
              ["authors"] RUndefined eq_refl eq_refl)))
           3 (mkSource "/site" "content") example_document
           (RObject [("id", RString "x"); ("type", RString "post");
                     ("title", RString "Hi");
                     ("tags", RArray [RString "a"; RString "b"])])
           [OpSet (DFValue "string" (RString "Hello")) ["title"] (string_field "title")]
           (OpRemove ["authors"] 0%Z)
           [OpSet (DFValue "string" (RString "Bye")) ["title"] (string_field "title")]
           TypeError); reflexivity.
Defined.

(** X7. After a [set] whose path can be written, the path holds the mapped
    value: [_.set] makes the objects and arrays that are missing on the
    way. *)
Theorem set_then_get modelMap data field fieldPath modelField value :
  mapUpdateOperationToValue field modelMap (Some modelField) = Ok value →
  writable data fieldPath →
  ∃ data',
    applyUpdateOperation modelMap data (OpSet field fieldPath modelField) = Ok data'
    ∧ lodash_get data' fieldPath = Ok value.
Proof.
  intros Hvalue Hwritable.
  destruct (baseSet_writable fieldPath data value Hwritable) as (data' & Hset & _ & Hget).
  exists data'. destruct fieldPath as [|key rest]; [done|]. split.
  - cbn [applyUpdateOperation]. rewrite Hvalue. simpl. unfold lodash_set.
    by rewrite (names_entry_container data key) by apply Hwritable.
  - done.
Qed.

Lemma set_then_get_witness :
  ∃ data',
    applyUpdateOperation example_models (RObject [("title", RString "Hi")])
      (OpSet (DFValue "string" (RString "Bob")) ["authors"; "1"; "name"]
             (string_field "name")) = Ok data'
    ∧ lodash_get data' ["authors"; "1"; "name"] = Ok (RString "Bob").
Proof.
  apply (set_then_get example_models (RObject [("title", RString "Hi")])
           (DFValue "string" (RString "Bob")) ["authors"; "1"; "name"]
           (string_field "name") (RString "Bob") eq_refl).
  simpl. split_and!; first [done | by exists 1].
Defined.

Section deleting.
Context {V : Type}.
Implicit Types (o : list (string * V)) (k : string).

Lemma obj_get_delete_eq o k : NoDup o.*1 → obj_get (obj_delete o k) k = None.
Proof.
  induction o as [|[k' v'] o IH]; simpl; [done|].
  intros [Hk' Hnodup]%NoDup_cons.
  destruct (String.eqb_spec k' k) as [->|Hne].
  - by apply obj_get_None.
  - simpl. destruct (String.eqb_spec k' k); [done|]. by apply IH.
Qed.

Lemma obj_get_delete_ne o k k' : k ≠ k' → obj_get (obj_delete o k) k' = obj_get o k'.
Proof.
  intros Hne. induction o as [|[k0 v0] o IH]; simpl; [done|].
  destruct (String.eqb_spec k0 k) as [->|Hk].
  - by destruct (String.eqb_spec k k').
  - simpl. by rewrite IH.
Qed.
End deleting.

Lemma baseUnset_through object key path :
  path ≠ [] →
  baseUnset object (key :: path)
  = if nullish object then Ok object
    else parent ← property_get object key;
         if nullish parent then Ok object
         else changed ← baseUnset parent path; Ok (with_entry object key changed).
Proof. by destruct path. Qed.

Lemma nullish_delete_property object key :
  nullish (delete_property object key) = nullish object.
Proof. destruct object; simpl; try done. by destruct (array_index key). Qed.

Lemma property_get_delete_eq parent key :
  deletable parent key → property_get (delete_property parent key) key = Ok RUndefined.
Proof.
  destruct parent as [| | | | |items|entries]; simpl; try done.
  - intros [i Hi]. rewrite Hi. rewrite (property_get_index _ _ i) by done.
    destruct (decide (i < length items)).
    + by rewrite list_lookup_insert_eq.
    + rewrite lookup_ge_None_2; [done|]. rewrite length_insert. lia.
  - intros [Hnodup Hname]. rewrite property_get_entry.
    rewrite obj_get_delete_eq by done. by rewrite bool_decide_false.
Qed.

Lemma property_get_delete_ne object a b :
  a ≠ b → property_get (delete_property object a) b = property_get object b.
Proof.
  intros Hne. destruct object as [| | | | |items|entries]; simpl; try done.
  - destruct (array_index a) as [i|] eqn:Ha; [|done].
    destruct (array_index b) as [j|] eqn:Hb.
    + rewrite !(property_get_index _ _ j) by done.
      rewrite list_lookup_insert_ne; [done|]. intros ->. apply Hne.
      by eapply array_index_inj.
    + unfold property_get. simpl. rewrite Hb. by rewrite length_insert.
  - rewrite !property_get_entry. by rewrite obj_get_delete_ne.
Qed.

(** Putting a changed value back keeps what the other keys read. *)
Lemma with_entry_frame object a b changed :
  a ≠ b →
  nullish (with_entry object a changed) = nullish object
  ∧ property_get (with_entry object a changed) b = property_get object b.
Proof.
  intros Hne. destruct object as [| | | | |items|entries]; simpl; try done.
  - destruct (array_index a) as [i|] eqn:Ha; [|done]. split; [done|].
    destruct (array_index b) as [j|] eqn:Hb.
    + rewrite !(property_get_index _ _ j) by done.
      rewrite list_lookup_insert_ne; [done|]. intros ->. apply Hne.
      by eapply array_index_inj.
    + unfold property_get. simpl. rewrite Hb. by rewrite length_insert.
  - split; [done|]. rewrite !property_get_entry. by rewrite obj_get_set_ne.
Qed.

(** A value that is there is put back where it was read, or it is the part
    of a primitive, which nothing changes. *)
Lemma with_entry_cases object key child changed :
  property_get object key = Ok child → nullish child = false →
  with_entry object key changed = object
  ∨ property_get (with_entry object key changed) key = Ok changed.
Proof.
  destruct object as [| | | | |items|entries]; simpl; auto.
  - destruct (array_index key) as [i|] eqn:Hi; [|by left].
    rewrite (property_get_index _ _ i) by done. intros [= Hchild] Hnull. right.
    rewrite (property_get_index _ _ i) by done.
    destruct (items !! i) as [x|] eqn:Hx; [|by subst child].
    rewrite list_lookup_insert_eq; [done|]. by eapply lookup_lt_Some.
  - intros _ _. right. rewrite property_get_entry. by rewrite obj_get_set_eq.
Qed.

Lemma baseUnset_returns parentPath key : ∀ object parent,
  baseGet object parentPath = Ok parent →
  ∃ changed, baseUnset object (parentPath ++ [key]) = Ok changed.
Proof.
  induction parentPath as [|k0 rest IH]; intros object parent Hparent.
  - cbn [app baseUnset]. eauto.
  - rewrite <- app_comm_cons. rewrite baseUnset_through by (by destruct rest).
    cbn [baseGet] in Hparent. destruct (nullish object); [eauto|].
    apply bind_Ok in Hparent as (child & -> & Hrest). cbn [mbind result_bind].
    destruct (nullish child); [eauto|].
    destruct (IH child parent Hrest) as [changed ->]. simpl. eauto.
Qed.

(** A container is put back where it was read. *)
Lemma with_entry_read object key child changed :
  property_get object key = Ok child → isObject child = true →
  nullish (with_entry object key changed) = false
  ∧ property_get (with_entry object key changed) key = Ok changed.
Proof.
  intros Hchild Hc. pose proof (property_get_container _ _ _ Hchild Hc) as Hkey.
  destruct object as [| | | | |items|entries]; cbn [with_entry names_entry] in *; try done.
  - destruct Hkey as [i Hi]. rewrite Hi. split; [done|].
    rewrite (property_get_index _ _ i) by done.
    rewrite (property_get_index _ _ i) in Hchild by done. injection Hchild as Hchild.
    destruct (items !! i) as [x|] eqn:Hx; [|by subst child].
    rewrite list_lookup_insert_eq; [done|]. by eapply lookup_lt_Some.
  - split; [done|]. rewrite property_get_entry. by rewrite obj_get_set_eq.
Qed.

Lemma baseUnset_reads_undefined parentPath key : ∀ object parent changed,
  baseGet object parentPath = Ok parent →
  deletable parent key →
  baseUnset object (parentPath ++ [key]) = Ok changed →
  baseGet changed (parentPath ++ [key]) = Ok RUndefined.
Proof.
  induction parentPath as [|k0 rest IH]; intros object parent changed Hparent Hdel.
  - cbn [app baseUnset baseGet] in *. injection Hparent as <-. intros [= <-].
    destruct (nullish (delete_property object key)); [done|].
    by rewrite property_get_delete_eq.
  - assert (isObject parent = true) as Hc by (by destruct parent).
    destruct (baseGet_container _ _ _ _ Hparent Hc)
      as (Hobject & child & Hchild & Hcc & Hkey & Hrest).
    rewrite <- !app_comm_cons. rewrite baseUnset_through by (by destruct rest).
    rewrite (isObject_not_nullish object) by done. rewrite Hchild.
    cbn [mbind result_bind]. rewrite (isObject_not_nullish child) by done.
    intros Hunset. apply bind_Ok in Hunset as (inner & Hinner & [= <-]).
    cbn [baseGet].
    destruct (with_entry_read object k0 child inner Hchild Hcc) as [-> ->].
    cbn [mbind result_bind]. by eapply IH.
Qed.

Lemma baseUnset_frame common : ∀ object a b unset_rest read_rest changed,
  a ≠ b →
  baseUnset object (common ++ a :: unset_rest) = Ok changed →
  baseGet changed (common ++ b :: read_rest) = baseGet object (common ++ b :: read_rest).
Proof.
  induction common as [|key common IH];
    intros object a b unset_rest read_rest changed Hne.
  - cbn [app]. destruct unset_rest as [|next unset_rest].
    + cbn [baseUnset baseGet]. intros [= <-]. rewrite nullish_delete_property.
      by rewrite property_get_delete_ne.
    + rewrite baseUnset_through by done.
      destruct (nullish object) eqn:Hobject; [by intros [= <-]|].
      intros Hunset. apply bind_Ok in Hunset as (parent & Hparent & Hunset).
      destruct (nullish parent); [by injection Hunset as <-|].
      apply bind_Ok in Hunset as (inner & _ & [= <-]).
      cbn [baseGet]. destruct (with_entry_frame object a b inner Hne) as [-> ->].
      by rewrite Hobject.
  - rewrite <- !app_comm_cons. rewrite baseUnset_through by (by destruct common).
    destruct (nullish object) eqn:Hobject; [by intros [= <-]|].
    intros Hunset. apply bind_Ok in Hunset as (child & Hchild & Hunset).
    destruct (nullish child) eqn:Hnull; [by injection Hunset as <-|].
    apply bind_Ok in Hunset as (inner & Hinner & [= <-]).
    destruct (with_entry_cases object key child inner Hchild Hnull) as [-> | Hread]; [done|].
    cbn [baseGet]. rewrite Hobject, Hchild.
    assert (nullish (with_entry object key inner) = false) as ->.
    { destruct object; try done. simpl. by destruct (array_index key). }
    rewrite Hread. cbn [mbind result_bind]. by eapply IH.
Qed.

(** X8. On a record that is a tree, an [unset] whose parent path can be
    read returns.  Afterwards the path reads [undefined], when its parent
    is an object that inherits nothing under the key, or an array and the
    key an index; every path that leaves it at another key reads what it
    read before. *)
Theorem unset_removes_entry modelMap data parentPath key parent :
  baseGet data parentPath = Ok parent →
  ∃ data',
    applyUpdateOperation modelMap data (OpUnset (parentPath ++ [key])) = Ok data'
    ∧ (deletable parent key →
       lodash_get data' (parentPath ++ [key]) = Ok RUndefined)
    ∧ (∀ common a b unset_rest read_rest,
         parentPath ++ [key] = common ++ a :: unset_rest → a ≠ b →
         lodash_get data' (common ++ b :: read_rest)
         = lodash_get data (common ++ b :: read_rest)).
Proof.
  intros Hparent. cbn [applyUpdateOperation]. unfold lodash_unset.
  destruct (nullish data) eqn:Hdata.
  - exists data. split_and!; [done| |done].
    intros Hdel. destruct parentPath as [|k0 rest].
    + injection Hparent as <-. by destruct data.
    + cbn [baseGet] in Hparent. rewrite Hdata in Hparent. injection Hparent as <-.
      done.
  - destruct (baseUnset_returns parentPath key data parent Hparent) as [data' Hunset].
    exists data'. split_and!; [done | |].
    + intros Hdel. unfold lodash_get.
      rewrite (baseUnset_reads_undefined parentPath key data parent data') by done.
      by destruct parentPath.
    + intros common a b unset_rest read_rest Hpath Hne. unfold lodash_get.
      rewrite Hpath in Hunset.
      rewrite (baseUnset_frame common data a b unset_rest read_rest data') by done. done.
Qed.

Lemma unset_removes_entry_witness :
  ∃ data',
    applyUpdateOperation example_models
      (RObject [("title", RString "Hi"); ("seo", RObject [("robots", RString "all")])])
      (OpUnset (["seo"] ++ ["robots"])) = Ok data'
    ∧ lodash_get data' ["seo"; "robots"] = Ok RUndefined
    ∧ lodash_get data' ["title"] = Ok (RString "Hi").
Proof.
  destruct (unset_removes_entry example_models
              (RObject [("title", RString "Hi");
                        ("seo", RObject [("robots", RString "all")])])
              ["seo"] "robots" (RObject [("robots", RString "all")]) eq_refl)
    as (data' & Happly & Hgone & Hkept).
  exists data'. split_and!; [done | |].
  - apply Hgone. simpl. split; apply (bool_decide_unpack _); by vm_compute.
  - apply (Hkept [] "seo" "title" ["robots"] []); [reflexivity | discriminate].
Defined.

(** * Further properties of the reverse mapper *)

Lemma DocumentField_nested_ind (P : DocumentField → Prop) :
  (∀ type value, P (DFValue type value)) →
  (∀ items, Forall P items → P (DFList items)) →
  (∀ fields, Forall (λ kd, P kd.2) fields → P (DFObject fields)) →
  (∀ name fields, Forall (λ kd, P kd.2) fields → P (DFModel name fields)) →
  (∀ refType refId, P (DFReference refType refId)) →
  (∀ fields, Forall (λ kd, P kd.2) fields → P (DFImage fields)) →
  ∀ u, P u.
Proof.
  intros Hvalue Hlist Hobject Hmodel Hreference Himage.
  refine (fix IH u : P u :=
            let each_field :=
              fix go (l : list (string * DocumentField)) : Forall (λ kd, P kd.2) l :=
                match l with
                | [] => @List.Forall_nil _ _
                | (k, d) :: rest =>
                    @List.Forall_cons _ (λ kd, P kd.2) (k, d) rest (IH d) (go rest)
                end in
            match u with
            | DFValue type value => Hvalue type value
            | DFList items =>
                Hlist items
                  ((fix go (l : list DocumentField) : Forall P l :=
                      match l with
                      | [] => @List.Forall_nil _ _
                      | x :: rest => @List.Forall_cons _ P x rest (IH x) (go rest)
                      end) items)
            | DFObject fields => Hobject fields (each_field fields)
            | DFModel name fields => Hmodel name fields (each_field fields)
            | DFReference refType refId => Hreference refType refId
            | DFImage fields => Himage fields (each_field fields)
            end).
Qed.

Lemma mapM_result_Ok_inv {A B : Type} (f : A → result B) xs ys :
  mapM f xs = Ok ys → Forall (λ x, ∃ y, f x = Ok y) xs.
Proof.
  revert ys. induction xs as [|x xs IH]; intros ys; [done|].
  cbn [mapM]. intros Hm. apply bind_Ok in Hm as (y & Hy & Hm).
  apply bind_Ok in Hm as (ys' & Hys & _). constructor; eauto.
Qed.

Lemma modelChild_loop_inv map childModel fields : ∀ acc res,
  for_of (modelChild map childModel) fields acc = Ok res →
  Forall (λ kd, ∃ spec value, map kd.2 spec = Ok value) fields.
Proof.
  induction fields as [|[k d] fields IH]; intros acc res; [done|].
  cbn [for_of]. intros Hloop. apply bind_Ok in Hloop as (acc' & Hstep & Hloop).
  constructor; [|by eapply IH]. unfold modelChild in Hstep.
  apply bind_Ok in Hstep as (value & Hvalue & _). eauto.
Qed.

Lemma mapM_result_ext {A B : Type} (f g : A → result B) xs :
  Forall (λ x, f x = g x) xs → mapM f xs = mapM g xs.
Proof.
  induction 1 as [|x xs Hx _ IH]; [done|]. cbn [mapM]. by rewrite Hx, IH.
Qed.

Lemma modelChild_loop_ext map map' childModel childModel' fields : ∀ acc,
  Forall (λ kd, ∀ spec spec', map kd.2 spec = map' kd.2 spec') fields →
  for_of (modelChild map childModel) fields acc
  = for_of (modelChild map' childModel') fields acc.
Proof.
  induction fields as [|[k d] fields IH]; intros acc Hall; [done|].
  apply Forall_cons in Hall as [Hd Hall]. simpl in Hd. cbn [for_of].
  assert (modelChild map childModel acc (k, d) = modelChild map' childModel' acc (k, d))
    as ->.
  { unfold modelChild.
    by rewrite (Hd (find_field (childModel ≫= member_fields) k)
                   (find_field (childModel' ≫= member_fields) k)). }
  destruct (modelChild map' childModel' acc (k, d)); simpl; [by apply IH | done..].
Qed.

(** A field without an object field that has a child maps to the same
    outcome whatever the registry and the spec. *)
Lemma mappable_independent u :
  mappable u = true →
  ∀ modelMap modelField modelMap' modelField',
    mapUpdateOperationToValue u modelMap modelField
    = mapUpdateOperationToValue u modelMap' modelField'.
Proof.
  induction u as [type value|items IH|fields _|name fields IH|refType refId|fields _]
    using DocumentField_nested_ind; cbn [mappable]; try done.
  - intros Hitems%forallb_Forall modelMap modelField modelMap' modelField'.
    rewrite !mapUpdateOperationToValue_list_eq. f_equal. apply mapM_result_ext.
    eapply Forall_impl; [exact (proj2 (Forall_and _ _) (conj IH Hitems))|].
    simpl. intros item [Hitem Hm]. by apply Hitem.
  - by destruct fields.
  - intros Hfields%forallb_Forall modelMap modelField modelMap' modelField'.
    rewrite !mapUpdateOperationToValue_model_eq. apply modelChild_loop_ext.
    eapply Forall_impl; [exact (proj2 (Forall_and _ _) (conj IH Hfields))|].
    simpl. intros kd [Hkd Hm] spec spec'. by apply Hkd.
Qed.

(** A field with an object field that has a child, or with a field tagged
    [list] without items, never maps to a value. *)
Lemma not_mappable_no_value u :
  mappable u = false →
  ∀ modelMap modelField value,
    mapUpdateOperationToValue u modelMap modelField ≠ Ok value.
Proof.
  induction u as [type value|items IH|fields _|name fields IH|refType refId|fields _]
    using DocumentField_nested_ind; cbn [mappable]; try done.
  - intros Hlist%negb_false_iff modelMap modelField v.
    apply String.eqb_eq in Hlist as ->. done.
  - intros Hitems modelMap modelField value.
    rewrite mapUpdateOperationToValue_list_eq. intros Hmap.
    apply bind_Ok in Hmap as (mapped & Hmapped & _).
    apply mapM_result_Ok_inv in Hmapped.
    assert (forallb mappable items = true) as Hall; [|congruence].
    apply forallb_forall. intros item Hin. apply list_elem_of_In in Hin.
    rewrite Forall_forall in IH, Hmapped.
    destruct (Hmapped item Hin) as [v Hv].
    destruct (mappable item) eqn:Hitem; [done|].
    by destruct (IH item Hin Hitem _ _ _ Hv).
  - destruct fields as [|[k d] fields]; [done|].
    intros _ modelMap modelField value. apply mapUpdateOperationToValue_object_child.
  - intros Hfields modelMap modelField value.
    rewrite mapUpdateOperationToValue_model_eq. intros Hmap.
    apply modelChild_loop_inv in Hmap.
    assert (forallb (λ kd : string * DocumentField, mappable kd.2) fields = true)
      as Hall; [|congruence].
    apply forallb_forall. intros kd Hin. apply list_elem_of_In in Hin.
    rewrite Forall_forall in IH, Hmap.
    destruct (Hmap kd Hin) as (spec & v & Hv).
    destruct (mappable kd.2) eqn:Hkd; [done|].
    by destruct (IH kd Hin Hkd _ _ _ Hv).
Qed.

(** A write of a plain key to an object returns an object. *)
Lemma modelChild_plain map childModel acc fieldName child value :
  plain_key fieldName = true →
  map child (find_field (childModel ≫= member_fields) fieldName) = Ok value →
  ∃ acc', modelChild map childModel (RObject acc) (fieldName, child) = Ok (RObject acc').
Proof.
  intros Hplain Hmap. unfold modelChild. rewrite Hmap. cbn [mbind result_bind].
  unfold castPath, isKey. unfold plain_key in Hplain. rewrite Hplain.
  unfold lodash_set. cbn [isObject orb baseSet assignValue].
  destruct (refused_key fieldName); eauto.
Qed.

Lemma modelChild_loop_plain map childModel fields : ∀ acc,
  Forall (λ kd, plain_key kd.1 = true ∧ ∀ spec, ∃ value, map kd.2 spec = Ok value) fields →
  ∃ acc', for_of (modelChild map childModel) fields (RObject acc) = Ok (RObject acc').
Proof.
  induction fields as [|[k d] fields IH]; intros acc Hall; [by eauto|].
  apply Forall_cons in Hall as [[Hplain Hd] Hall]. simpl in Hplain, Hd. cbn [for_of].
  destruct (Hd (find_field (childModel ≫= member_fields) k)) as [value Hvalue].
  destruct (modelChild_plain map childModel acc k d value Hplain Hvalue) as [acc' ->].
  cbn [mbind result_bind]. by apply IH.
Qed.

(** A mappable field whose model fields have plain names maps to a
    value. *)
Lemma mappable_plain_value u :
  mappable u = true → plain_names u = true →
  ∀ modelMap modelField, ∃ value,
    mapUpdateOperationToValue u modelMap modelField = Ok value.
Proof.
  induction u as [type value|items IH|fields _|name fields IH|refType refId|fields _]
    using DocumentField_nested_ind; cbn [mappable plain_names].
  - intros Hlist%negb_true_iff _ modelMap modelField. simpl. rewrite Hlist.
    destruct (String.eqb type "object" || String.eqb type "model"); [by eauto|].
    destruct (String.eqb type "reference"); eauto.
  - intros Hitems%forallb_Forall Hnames%forallb_Forall modelMap modelField.
    rewrite mapUpdateOperationToValue_list_eq.
    destruct (Forall_exists_Forall2
                (λ item value,
                   mapUpdateOperationToValue item modelMap
                     (listItemModelField_of (listItemsModel_of modelField) item)
                   = Ok value) items) as [values Hvalues].
    { eapply Forall_impl;
        [exact (proj2 (Forall_and _ _)
                  (conj IH (proj2 (Forall_and _ _) (conj Hitems Hnames))))|].
      simpl. intros item (Hitem & Hm & Hn). by apply Hitem. }
    exists (RArray values). by rewrite (mapM_result_Forall2 _ items values).
  - destruct fields; [|done]. intros _ _ modelMap modelField. by exists (RObject []).
  - intros Hfields%forallb_Forall Hnames%forallb_Forall modelMap modelField.
    rewrite mapUpdateOperationToValue_model_eq.
    destruct (modelChild_loop_plain
                (λ child spec, mapUpdateOperationToValue child modelMap spec)
                (registered modelMap name) fields []) as [acc' Hloop]; [|by eauto].
    eapply Forall_impl;
      [exact (proj2 (Forall_and _ _)
                (conj IH (proj2 (Forall_and _ _) (conj Hfields Hnames))))|].
    simpl. intros kd (Hkd & Hm & [Hplain Hn]%andb_true_iff). split; [done|].
    intros spec. by apply Hkd.
  - intros _ _ modelMap modelField. by exists refId.
  - intros _ _ modelMap modelField. by exists RUndefined.
Qed.

(** X9. Whether [mapUpdateOperationToValue] has a value for an update
    field is decided by the field alone.  A field with an object field
    that has a child (or with a field tagged [list] that has no [items])
    never maps to a value.  Any other field maps to the same outcome
    whatever the registry and the field spec, and to a value when the
    names of its model fields are plain keys. *)
Theorem mapUpdateOperationToValue_returns updateOperationField :
  (mappable updateOperationField = false →
   ∀ modelMap modelField value,
     mapUpdateOperationToValue updateOperationField modelMap modelField ≠ Ok value)
  ∧ (mappable updateOperationField = true →
     ∀ modelMap modelField modelMap' modelField',
       mapUpdateOperationToValue updateOperationField modelMap modelField
       = mapUpdateOperationToValue updateOperationField modelMap' modelField')
  ∧ (mappable updateOperationField = true →
     plain_names updateOperationField = true →
     ∀ modelMap modelField, ∃ value,
       mapUpdateOperationToValue updateOperationField modelMap modelField = Ok value).
Proof.
  split_and!.
  - apply not_mappable_no_value.
  - apply mappable_independent.
  - apply mappable_plain_value.
Qed.

Lemma mapUpdateOperationToValue_returns_witness :
  (∃ value,
     mapUpdateOperationToValue
       (DFList [DFModel "person" [("name", DFValue "string" (RString "Bob"))];
                DFReference "document" (RString "content/al.json")])
       example_models (Some authors_field) = Ok value)
  ∧ mapUpdateOperationToValue
      (DFList [DFModel "person" [("name", DFValue "string" (RString "Bob"))];
               DFReference "document" (RString "content/al.json")])
      example_models (Some authors_field)
    = mapUpdateOperationToValue
        (DFList [DFModel "person" [("name", DFValue "string" (RString "Bob"))];
                 DFReference "document" (RString "content/al.json")])
        ∅ None.
Proof.
  split.
  - apply (proj2 (proj2 (mapUpdateOperationToValue_returns
                    (DFList [DFModel "person" [("name", DFValue "string" (RString "Bob"))];
                             DFReference "document" (RString "content/al.json")])))
             eq_refl eq_refl).
  - apply (proj1 (proj2 (mapUpdateOperationToValue_returns
                    (DFList [DFModel "person" [("name", DFValue "string" (RString "Bob"))];
                             DFReference "document" (RString "content/al.json")])))
             eq_refl).
Defined.

(** * Further properties of the forward converter *)

Lemma for_of_invariant {A S : Type} (body : S → A → result S) (I : S → Prop) xs :
  ∀ s res,
    (∀ s x s', x ∈ xs → I s → body s x = Ok s' → I s') →
    I s → for_of body xs s = Ok res → I res.
Proof.
  induction xs as [|x xs IH]; intros s res Hstep Hs; simpl.
  - by intros [= <-].
  - intros Hloop. apply bind_Ok in Hloop as (s' & Hbody & Hloop).
    eapply (IH s'); [|by eapply Hstep; [apply elem_of_cons; left| |]|done].
    intros ???? . apply Hstep. apply elem_of_cons. by right.
Qed.

Lemma obj_set_NoDup {V : Type} (o : list (string * V)) k v :
  NoDup o.*1 → NoDup (obj_set o k v).*1.
Proof.
  induction o as [|[k' v'] o IH]; simpl.
  - intros _. apply NoDup_singleton.
  - intros [Hk' Hnodup]%NoDup_cons. destruct (String.eqb_spec k' k) as [->|Hne]; simpl.
    + by apply NoDup_cons.
    + apply NoDup_cons. split; [|by apply IH].
      intros ([k0 v0] & Hk0 & Hin)%list_elem_of_fmap. simpl in Hk0. subst k0.
      assert (obj_get (obj_set o k v) k' = obj_get o k') as Hget
        by (by apply obj_get_set_ne).
      assert (obj_get o k' = None) as Hnone by (by apply obj_get_None).
      rewrite Hnone in Hget. apply obj_get_None in Hget. apply Hget.
      apply list_elem_of_fmap. by exists (k', v0).
Qed.

Lemma obj_set_elem_of {V : Type} (o : list (string * V)) k v k' v' :
  (k', v') ∈ obj_set o k v → (k', v') = (k, v) ∨ (k', v') ∈ o.
Proof.
  induction o as [|[k0 v0] o IH]; simpl.
  - intros ->%list_elem_of_singleton. by left.
  - destruct (String.eqb_spec k0 k) as [->|Hne].
    + intros [->|Hin]%elem_of_cons; [by left|]. right. apply elem_of_cons. by right.
    + intros [->|Hin]%elem_of_cons.
      * right. apply elem_of_cons. by left.
      * destruct (IH Hin) as [->|Hin']; [by left|]. right. apply elem_of_cons. by right.
Qed.

(** What [convertFields] returns holds only conversions of declared names
    and truthy values, one per name. *)
Lemma convertFields_declared `{Host} fuel dataFields modelFields modelMap res :
  convertFields fuel dataFields modelFields modelMap = Ok res →
  NoDup res.*1
  ∧ ∀ fieldName typed, (fieldName, typed) ∈ res →
      ∃ entries fieldValue modelField,
        Object_entries dataFields = Ok entries
        ∧ (fieldName, fieldValue) ∈ entries
        ∧ find (has_name fieldName) (default [] modelFields) = Some modelField
        ∧ truthy fieldValue = true
        ∧ convertFieldType fuel fieldValue modelField modelMap = Ok (Some typed).
Proof.
  unfold convertFields, convertFields_with. intros Hconv.
  apply bind_Ok in Hconv as (entries & Hentries & Hloop).
  eapply (for_of_invariant _
            (λ acc, NoDup acc.*1
                    ∧ ∀ fieldName typed, (fieldName, typed) ∈ acc →
                        ∃ entries' fieldValue modelField,
                          Object_entries dataFields = Ok entries'
                          ∧ (fieldName, fieldValue) ∈ entries'
                          ∧ find (has_name fieldName) (default [] modelFields)
                            = Some modelField
                          ∧ truthy fieldValue = true
                          ∧ convertFieldType fuel fieldValue modelField modelMap
                            = Ok (Some typed))) in Hloop; [exact Hloop| |].
  - intros acc [k x] acc' Hin [Hnodup Hacc] Hstep. unfold convertField in Hstep.
    destruct (find (has_name k) (default [] modelFields)) as [spec|] eqn:Hfind;
      [|by injection Hstep as <-].
    destruct (truthy x) eqn:Htruthy; simpl in Hstep; [|by injection Hstep as <-].
    apply bind_Ok in Hstep as ([typed|] & Hconv & Hstep); [|by injection Hstep as <-].
    destruct (String.eqb k "__proto__"); injection Hstep as <-; [done|].
    split; [by apply obj_set_NoDup|].
    intros fieldName typed' [[= -> ->]|Hold]%obj_set_elem_of; [|by apply Hacc].
    by exists entries, x, spec.
  - split; [apply NoDup_nil_2|]. intros ?? Hin. by apply elem_of_nil in Hin.
Qed.

(** X10. Whatever value [convertFields] is given, the mapping it returns
    has one entry per name, and each entry is the conversion of a truthy
    value that the data holds under that name and whose name the field list
    declares: no undeclared or falsy field is ever emitted. *)
Theorem convertFields_emits_declared `{Host} fuel dataFields modelFields modelMap res :
  convertFields fuel dataFields modelFields modelMap = Ok res →
  NoDup res.*1
  ∧ ∀ fieldName typed, (fieldName, typed) ∈ res →
      ∃ entries fieldValue modelField,
        Object_entries dataFields = Ok entries
        ∧ (fieldName, fieldValue) ∈ entries
        ∧ find (has_name fieldName) (default [] modelFields) = Some modelField
        ∧ truthy fieldValue = true
        ∧ convertFieldType fuel fieldValue modelField modelMap = Ok (Some typed).
Proof. apply convertFields_declared. Qed.

Lemma convertFields_emits_declared_witness :
  NoDup [("title", DFValue "string" (RString "Hi"));
         ("tags", DFList [DFValue "string" (RString "a");
                          DFValue "string" (RString "b")])].*1.
Proof.
  apply (@convertFields_emits_declared example_host 2 (RObject example_fields)
           (model_fields post_model) example_models). reflexivity.
Defined.

(** X11. [convertDocument] returns [null] exactly when the record can be
    destructured and its [type] prints as a key under which the registry
    holds no model and [Object.prototype] no member; a record of an unknown
    model never makes it throw. *)
Theorem convertDocument_null `{Host} fuel filePath fullFilePath data modelMap :
  convertDocument fuel filePath fullFilePath data modelMap = Ok None
  ↔ ∃ type fields key,
      destructure data = Ok (type, fields)
      ∧ toPropertyKey type = Ok key
      ∧ modelMap !! key = None
      ∧ key ∉ Object_prototype_names.
Proof.
  unfold convertDocument, registry_get. split.
  - destruct (destructure data) as [[type fields]| | |]; simpl; [|done..].
    destruct (toPropertyKey type) as [key| | |] eqn:Hkey; simpl; [|done..].
    destruct (registered modelMap key) as [model|] eqn:Hlookup.
    + destruct (convertFields _ _ _ _); simpl; [|done..]. by destruct (member_name model).
    + intros _. apply registered_None in Hlookup as [Hown Hname].
      by exists type, fields, key.
  - intros (type & fields & key & -> & Hkey & Hown & Hname). simpl. rewrite Hkey. simpl.
    by rewrite (proj2 (registered_None modelMap key)).
Qed.

Lemma convertDocument_null_witness :
  @convertDocument example_host 2 "content/y.json" "/site/content/y.json"
    (RObject [("type", RString "page"); ("title", RString "Hi")]) example_models
  = Ok None.
Proof.
  apply (proj2 (@convertDocument_null example_host 2 "content/y.json"
                  "/site/content/y.json"
                  (RObject [("type", RString "page"); ("title", RString "Hi")])
                  example_models)).
  exists (RString "page"), (RObject [("title", RString "Hi")]), "page".
  split_and!; try reflexivity. apply (bool_decide_unpack _). by vm_compute.
Defined.

Lemma destructure_fields data type fields :
  destructure data = Ok (type, fields) →
  ∃ entries, fields = RObject entries
             ∧ ∀ key value, (key, value) ∈ entries → key ≠ "id" ∧ key ≠ "type".
Proof.
  unfold destructure. destruct (nullish data); [done|].
  intros Hd. apply bind_Ok in Hd as (entries & _ & [= _ <-]).
  eexists. split; [done|]. intros key value Hin.
  apply list_elem_of_In, filter_In in Hin as [_ Hkeep]. simpl in Hkeep.
  apply negb_true_iff, orb_false_iff in Hkeep as [Hid Htype].
  split; intros ->; by vm_compute in Hid, Htype.
Qed.

(** X12. The document [convertDocument] builds has the path it was given as
    [id], the name of what the registry finds under the record's [type] -- a
    model, or a function every object inherits --, the constant envelope,
    and fields among which neither [id] nor [type] occurs, even where the
    model declares such a field. *)
Theorem convertDocument_envelope `{Host} fuel filePath fullFilePath data modelMap document :
  convertDocument fuel filePath fullFilePath data modelMap = Ok (Some document) →
  doc_type document = "document"
  ∧ doc_id document = filePath
  ∧ doc_manageUrl document = ""
  ∧ doc_status document = "published"
  ∧ (doc_createdAt document, doc_updatedAt document) = getFileDates fullFilePath
  ∧ (∃ key model,
       toPropertyKey (default RUndefined (own_property data "type")) = Ok key
       ∧ registered modelMap key = Some model
       ∧ member_name model = Some (doc_modelName document))
  ∧ NoDup (doc_fields document).*1
  ∧ obj_get (doc_fields document) "id" = None
  ∧ obj_get (doc_fields document) "type" = None.
Proof.
  unfold convertDocument, registry_get. intros Hconv.
  destruct (destructure data) as [[type fields]| | |] eqn:Hd; simpl in Hconv; [|done..].
  destruct (toPropertyKey type) as [key| | |] eqn:Hkey; simpl in Hconv; [|done..].
  destruct (registered modelMap key) as [model|] eqn:Hlookup; [|done].
  apply bind_Ok in Hconv as (typed & Hfields & Hconv).
  destruct (member_name model) as [modelName|] eqn:Hname; [|done].
  injection Hconv as <-. simpl.
  destruct (destructure_fields _ _ _ Hd) as (entries & -> & Hkeys).
  destruct (convertFields_declared _ _ _ _ _ Hfields) as [Hnodup Hdeclared].
  assert (type = default RUndefined (own_property data "type")) as Htype.
  { unfold destructure in Hd. destruct (nullish data); [done|].
    apply bind_Ok in Hd as (? & _ & [= <- _]). done. }
  split_and!; try done.
  - by destruct (getFileDates fullFilePath).
  - exists key, model. by rewrite <- Htype.
  - apply obj_get_None. intros ([k d] & Hk & Hin)%list_elem_of_fmap. simpl in Hk. subst k.
    destruct (Hdeclared _ _ Hin) as (? & value & _ & [= <-] & Hel & _).
    by destruct (Hkeys _ _ Hel).
  - apply obj_get_None. intros ([k d] & Hk & Hin)%list_elem_of_fmap. simpl in Hk. subst k.
    destruct (Hdeclared _ _ Hin) as (? & value & _ & [= <-] & Hel & _).
    by destruct (Hkeys _ _ Hel).
Qed.

Lemma convertDocument_envelope_witness :
  ∃ document,
    @convertDocument example_host 2 "content/x.json" "/site/content/x.json"
      (RObject [("id", RString "x"); ("type", RString "post"); ("title", RString "Hi")])
      {[ "post" := mkModel "post" (Some [string_field "title"; string_field "type"]) ]}
    = Ok (Some document)
    ∧ doc_id document = "content/x.json"
    ∧ obj_get (doc_fields document) "type" = None.
Proof.
  eexists. split; [reflexivity|].
  split;
    apply (@convertDocument_envelope example_host 2 "content/x.json" "/site/content/x.json"
             (RObject [("id", RString "x"); ("type", RString "post");
                       ("title", RString "Hi")])
             {[ "post" := mkModel "post"
                            (Some [string_field "title"; string_field "type"]) ]});
    reflexivity.
Defined.

(** * Reading and writing files *)

(** X13. What [saveFileData] hands to the writer is read back by
    [getFileData] as the data saved.  A file that is not markdown holds the
    data itself.  For a markdown file the data is put under [frontmatter]
    beside the other keys of the parsed file, which are kept; it is read
    back from there when the file has a [markdown] key, and without that
    key the whole wrapper is read back instead. *)
Theorem saveFileData_read_back (H : Host) filePath data :
  (markdown_file filePath = false →
   saveFileData filePath data = outputDataIfNeeded filePath data
   ∧ ∀ H' : Host,
       @path_extname H' = @path_extname H →
       @parseFile H' filePath = Ok data →
       @getFileData H' filePath = Ok data)
  ∧ (∀ entries written,
       markdown_file filePath = true →
       parseFile filePath = Ok (RObject entries) →
       written = RObject (obj_set entries "frontmatter" data) →
       saveFileData filePath data = outputDataIfNeeded filePath written
       ∧ (∀ key, key ≠ "frontmatter" →
            property_get written key = property_get (RObject entries) key)
       ∧ ∀ H' : Host,
           @path_extname H' = @path_extname H →
           @parseFile H' filePath = Ok written →
           (lodash_has (RObject entries) "markdown" = true →
            @getFileData H' filePath = Ok data)
           ∧ (lodash_has (RObject entries) "markdown" = false →
              @getFileData H' filePath = Ok written)).
Proof.
  split.
  - intros Hplain. unfold saveFileData. rewrite Hplain. split; [done|].
    intros H' Hext Hparse'. unfold getFileData, markdown_file. rewrite Hparse', Hext.
    unfold markdown_file in Hplain. by rewrite Hplain.
  - intros entries written Hmd Hparse ->. unfold saveFileData. rewrite Hmd, Hparse.
    split_and!; [done | |].
    + intros key Hkey. rewrite !property_get_entry. by rewrite obj_get_set_ne.
    + intros H' Hext Hparse'. unfold getFileData, markdown_file.
      rewrite Hparse', Hext. unfold markdown_file in Hmd. rewrite Hmd. simpl.
      rewrite obj_get_set_eq, obj_get_set_ne by done.
      rewrite (bool_decide_true (is_Some (Some data))) by eauto. simpl.
      split; intros ->; done.
Qed.

Lemma saveFileData_read_back_witness :
  @saveFileData markdown_host "/site/content/x.md"
    (RObject [("type", RString "post"); ("title", RString "Yo")])
  = @outputDataIfNeeded markdown_host "/site/content/x.md"
      (RObject [("frontmatter", RObject [("type", RString "post"); ("title", RString "Yo")]);
                ("markdown", RString "Body")])
  ∧ @getFileData markdown_host_saved "/site/content/x.md"
    = Ok (RObject [("type", RString "post"); ("title", RString "Yo")]).
Proof.
  destruct (proj2 (saveFileData_read_back markdown_host "/site/content/x.md"
                     (RObject [("type", RString "post"); ("title", RString "Yo")]))
              _ _ eq_refl eq_refl eq_refl) as (Hsave & _ & Hread).
  split; [exact Hsave|].
  by apply (Hread markdown_host_saved eq_refl eq_refl).
Defined.

(** * Listings, changes and assets *)

Lemma pushAsset_loop `{Host} `{Directory} this filePaths : ∀ assets,
  for_of (pushAsset this) filePaths assets
  = Ok (assets ++
        map (λ filePath,
               convertAsset filePath (path_join (rootDir (cs_source this)) filePath)
                            (publicPath (cs_assets this))) filePaths).
Proof.
  induction filePaths as [|filePath filePaths IH]; intros assets.
  - by rewrite app_nil_r.
  - cbn [for_of]. unfold pushAsset at 1. simpl. rewrite IH. by rewrite <- app_assoc.
Qed.

(** X14. [getAssets] lists the assets directory -- [staticDir] when the
    reference type is [static], else [assetsDir] or, without one,
    [staticDir] -- and returns, in the order of the listing, the asset
    that [convertAsset] builds for each path and its join with the root
    directory.  Each asset has the listed path as [id] and [fileName] and
    the public path followed by it as [url].  Without a directory the call
    throws a [TypeError]. *)
Theorem getAssets_lists `{Host} `{Directory} this :
  (assets_directory (cs_assets this) = None → getAssets this = Throw TypeError)
  ∧ (∀ dir filePaths,
       assets_directory (cs_assets this) = Some dir →
       readDirRec (path_join (rootDir (cs_source this)) dir) = Ok filePaths →
       getAssets this
       = Ok (map (λ filePath,
                    convertAsset filePath
                      (path_join (rootDir (cs_source this)) filePath)
                      (publicPath (cs_assets this))) filePaths))
  ∧ (∀ assets asset, getAssets this = Ok assets → asset ∈ assets →
       asset_file_fileName asset = asset_id asset
       ∧ asset_file_url asset
         = default "" (publicPath (cs_assets this)) +:+ asset_id asset
       ∧ asset_title_value asset = path_basename (asset_id asset)).
Proof.
  split_and!.
  - intros Hdir. unfold getAssets. by rewrite Hdir.
  - intros dir filePaths Hdir Hlist. unfold getAssets. rewrite Hdir, Hlist. simpl.
    by rewrite pushAsset_loop.
  - intros assets asset. unfold getAssets.
    destruct (assets_directory (cs_assets this)) as [dir|]; [|done].
    destruct (readDirRec _) as [filePaths| | |]; simpl; [|done..].
    rewrite pushAsset_loop. intros [= <-]. simpl.
    intros (filePath & -> & _)%list_elem_of_fmap. done.
Qed.

Lemma getAssets_lists_witness :
  @getAssets example_host example_directory example_source
  = Ok [@convertAsset example_host example_directory "a.json" "/site/a.json" (Some "/");
        @convertAsset example_host example_directory "b.json" "/site/b.json" (Some "/")].
Proof.
  apply (proj1 (proj2 (@getAssets_lists example_host example_directory example_source))
           "public" ["a.json"; "b.json"]); reflexivity.
Defined.

(** What one listed file adds: a document, or a message for the logger. *)
Lemma listDocument_step `{Host} `{Directory} fuel this modelMap documents warnings
    filePath listed :
  listDocument fuel this modelMap (documents, warnings) filePath = Ok listed →
  (∃ data document,
     getFileData (path_join (path_join (rootDir (cs_source this))
                                       (contentDir (cs_source this))) filePath) = Ok data
     ∧ convertDocument fuel
         (path_relative (rootDir (cs_source this))
            (path_join (path_join (rootDir (cs_source this))
                                  (contentDir (cs_source this))) filePath))
         (path_join (path_join (rootDir (cs_source this))
                               (contentDir (cs_source this))) filePath)
         data modelMap = Ok (Some document)
     ∧ listed = (documents ++ [document], warnings))
  ∨ (∃ warning, listed = (documents, warn this warnings warning)).
Proof.
  unfold listDocument.
  destruct (getFileData _) as [data| | |] eqn:Hload; [|intros [= <-]; eauto|done..].
  intros Hstep. cbn [mbind result_bind] in Hstep.
  apply bind_Ok in Hstep as ([document|] & Hconv & [= <-]).
  - left. by exists data, document.
  - right. eauto.
Qed.

Lemma warn_length this warnings warning :
  length (warn this warnings warning)
  = length warnings + (if cs_logger this then 1 else 0).
Proof. unfold warn. destruct (cs_logger this); [rewrite length_app; simpl; lia | lia]. Qed.

Lemma listDocument_loop `{Host} `{Directory} fuel this modelMap filePaths :
  ∀ docs0 warns0 documents warnings,
    for_of (listDocument fuel this modelMap) filePaths (docs0, warns0)
    = Ok (documents, warnings) →
    ∃ docs skipped,
      documents = docs0 ++ docs
      ∧ length docs + skipped = length filePaths
      ∧ length warnings = length warns0 + (if cs_logger this then skipped else 0)
      ∧ sublist (doc_id <$> docs)
          ((λ filePath,
              path_relative (rootDir (cs_source this))
                (path_join (path_join (rootDir (cs_source this))
                                      (contentDir (cs_source this))) filePath))
             <$> filePaths).
Proof.
  induction filePaths as [|filePath filePaths IH]; intros docs0 warns0 documents warnings.
  - simpl. intros [= <- <-]. exists [], 0. rewrite app_nil_r.
    split_and!; [done | done | by destruct (cs_logger this) | done].
  - cbn [for_of]. intros Hfor. apply bind_Ok in Hfor as ([docs1 warns1] & Hstep & Hfor).
    destruct (IH _ _ _ _ Hfor) as (docs & skipped & -> & Hlen & Hwarn & Hsub).
    apply listDocument_step in Hstep
      as [(data & document & _ & Hconv & [= -> ->])|(warning & [= -> ->])].
    + exists (document :: docs), skipped. rewrite <- !app_assoc. simpl.
      split_and!; [done | lia | done |].
      apply convertDocument_id in Hconv. rewrite Hconv. by apply sublist_skip.
    + exists docs, (S skipped). simpl.
      split_and!; [done | lia | | by apply sublist_cons].
      rewrite Hwarn, warn_length. destruct (cs_logger this); lia.
Qed.

(** X15. When [getDocuments] returns, every listed file has given a
    document or has been skipped: a file that fails to load, or whose
    record converts to [null], is left out and the listing goes on.  With a
    logger every skipped file has given a warning; without one, before
    [init], nothing is reported.  The documents come in the order of the
    listing and have as [id] the path of their file relative to the root
    directory. *)
Theorem getDocuments_skips `{Host} `{Directory} fuel this modelMap filePaths
    documents warnings :
  readDirRec (path_join (rootDir (cs_source this)) (contentDir (cs_source this)))
  = Ok filePaths →
  getDocuments fuel this modelMap = Ok (documents, warnings) →
  length documents ≤ length filePaths
  ∧ (cs_logger this = true → length documents + length warnings = length filePaths)
  ∧ (cs_logger this = false → warnings = [])
  ∧ sublist (doc_id <$> documents)
      ((λ filePath,
          path_relative (rootDir (cs_source this))
            (path_join (path_join (rootDir (cs_source this))
                                  (contentDir (cs_source this))) filePath))
         <$> filePaths).
Proof.
  intros Hlist. unfold getDocuments. rewrite Hlist. simpl. intros Hfor.
  destruct (listDocument_loop _ _ _ _ _ _ _ _ Hfor)
    as (docs & skipped & -> & Hlen & Hwarn & Hsub).
  simpl in *. split_and!; [lia | | | done].
  - intros Hlogger. rewrite Hlogger in Hwarn. lia.
  - intros Hlogger. rewrite Hlogger in Hwarn. by destruct warnings.
Qed.

Lemma getDocuments_skips_witness :
  ∃ documents warnings,
    @getDocuments example_host example_directory 3 example_source example_models
    = Ok (documents, warnings)
    ∧ length documents + length warnings = 2
    ∧ doc_id <$> documents = ["content/a.json"; "content/b.json"].
Proof.
  eexists _, _. split; [by vm_compute|]. split; [|reflexivity].
  apply (proj1 (proj2 (@getDocuments_skips example_host example_directory 3 example_source
                         example_models ["a.json"; "b.json"] _ _ eq_refl eq_refl))).
  reflexivity.
Defined.

Lemma listDocument_throw `{Host} `{Directory} fuel this modelMap listed filePath data e :
  getFileData (path_join (path_join (rootDir (cs_source this))
                                    (contentDir (cs_source this))) filePath) = Ok data →
  convertDocument fuel
    (path_relative (rootDir (cs_source this))
       (path_join (path_join (rootDir (cs_source this))
                             (contentDir (cs_source this))) filePath))
    (path_join (path_join (rootDir (cs_source this))
                          (contentDir (cs_source this))) filePath)
    data modelMap = Throw e →
  listDocument fuel this modelMap listed filePath = Throw e.
Proof.
  intros Hload Hconv. destruct listed as [documents warnings]. unfold listDocument.
  rewrite Hload. cbn [mbind result_bind]. by rewrite Hconv.
Qed.

(** X16. An exception of the conversion is not caught: where a file loads
    and its conversion throws, as for a field of an unsupported type,
    [getDocuments] throws that exception and returns no document at all,
    whatever the files before and after it. *)
Theorem getDocuments_conversion_aborts `{Host} `{Directory} fuel this modelMap
    before filePath after listed data e :
  readDirRec (path_join (rootDir (cs_source this)) (contentDir (cs_source this)))
  = Ok (before ++ filePath :: after) →
  for_of (listDocument fuel this modelMap) before ([], []) = Ok listed →
  getFileData (path_join (path_join (rootDir (cs_source this))
                                    (contentDir (cs_source this))) filePath) = Ok data →
  convertDocument fuel
    (path_relative (rootDir (cs_source this))
       (path_join (path_join (rootDir (cs_source this))
                             (contentDir (cs_source this))) filePath))
    (path_join (path_join (rootDir (cs_source this))
                          (contentDir (cs_source this))) filePath)
    data modelMap = Throw e →
  getDocuments fuel this modelMap = Throw e.
Proof.
  intros Hlist Hbefore Hload Hconv. unfold getDocuments. rewrite Hlist. simpl.
  rewrite for_of_app, Hbefore. cbn [mbind result_bind for_of].
  by rewrite (listDocument_throw _ _ _ _ _ data e).
Qed.

Lemma getDocuments_conversion_aborts_witness :
  @getDocuments rich_host example_directory 3 example_source note_models
  = Throw (UnsupportedType (Some "richText")).
Proof.
  apply (@getDocuments_conversion_aborts rich_host example_directory 3 example_source
           note_models [] "a.json" ["b.json"] ([], [])
           (RObject [("type", RString "note"); ("body", RString "text")])
           (UnsupportedType (Some "richText"))); reflexivity.
Defined.

Lemma filter_filter_andb {A : Type} (p q : A → bool) xs :
  List.filter q (List.filter p xs) = List.filter (λ x, p x && q x) xs.
Proof.
  induction xs as [|x xs IH]; simpl; [done|].
  destruct (p x); simpl; [|done]. destruct (q x); by rewrite IH.
Qed.

Lemma changedAsset_loop `{Host} `{Directory} this assetFiles : ∀ assets deleted,
  for_of (changedAsset this) assetFiles (assets, deleted)
  = Ok (assets ++
        map (λ assetFile,
               convertAsset assetFile (path_join (rootDir (cs_source this)) assetFile)
                            (publicPath (cs_assets this)))
            (List.filter (λ assetFile,
                            pathExists (path_join (rootDir (cs_source this)) assetFile))
                         assetFiles),
        deleted ++
        List.filter (λ assetFile,
                       negb (pathExists (path_join (rootDir (cs_source this)) assetFile)))
                    assetFiles).
Proof.
  induction assetFiles as [|assetFile assetFiles IH]; intros assets deleted.
  - by rewrite !app_nil_r.
  - cbn [for_of]. unfold changedAsset at 1. simpl.
    destruct (pathExists (path_join (rootDir (cs_source this)) assetFile)); simpl;
      rewrite IH; by rewrite <- !app_assoc.
Qed.

Lemma changedDocument_step `{Host} `{Directory} fuel this modelMap seen contentFile res :
  changedDocument fuel this modelMap seen contentFile = Ok res →
  (pathExists (path_join (rootDir (cs_source this)) contentFile) = false
   ∧ changed_documents res = changed_documents seen
   ∧ changed_deleted res = changed_deleted seen ++ [contentFile])
  ∨ (pathExists (path_join (rootDir (cs_source this)) contentFile) = true
     ∧ changed_deleted res = changed_deleted seen
     ∧ (changed_documents res = changed_documents seen
        ∨ ∃ document, doc_id document = contentFile
                      ∧ changed_documents res = changed_documents seen ++ [document])).
Proof.
  unfold changedDocument.
  destruct (pathExists _) eqn:Hexists; simpl.
  - intros Hstep. right. split; [done|].
    destruct (getFileData _) as [data| | |]; [|injection Hstep as <-; auto|done..].
    cbn [mbind result_bind] in Hstep.
    apply bind_Ok in Hstep as ([document|] & Hconv & [= <-]); simpl; [|auto].
    split; [done|]. right. exists document. split; [|done].
    by apply convertDocument_id in Hconv.
  - intros [= <-]. left. done.
Qed.

Lemma changedDocument_loop `{Host} `{Directory} fuel this modelMap contentFiles :
  ∀ seen res,
    for_of (changedDocument fuel this modelMap) contentFiles seen = Ok res →
    changed_deleted res
    = changed_deleted seen ++
      List.filter (λ contentFile,
                     negb (pathExists (path_join (rootDir (cs_source this)) contentFile)))
                  contentFiles
    ∧ ∀ document, document ∈ changed_documents res →
        document ∈ changed_documents seen
        ∨ (doc_id document ∈ contentFiles
           ∧ pathExists (path_join (rootDir (cs_source this)) (doc_id document)) = true).
Proof.
  induction contentFiles as [|contentFile contentFiles IH]; intros seen res.
  - simpl. intros [= <-]. rewrite app_nil_r. auto.
  - cbn [for_of]. intros Hfor. apply bind_Ok in Hfor as (seen' & Hstep & Hfor).
    destruct (IH _ _ Hfor) as [Hdeleted Hdocs].
    apply changedDocument_step in Hstep
      as [(Hexists & Hd & Hdel)|(Hexists & Hdel & Hd)]; simpl; rewrite Hexists; simpl.
    + split; [by rewrite Hdeleted, Hdel, <- app_assoc|].
      intros document Hin. destruct (Hdocs _ Hin) as [Hold|[Hnew ?]].
      * left. by rewrite <- Hd.
      * right. split; [|done]. apply elem_of_cons. by right.
    + split; [by rewrite Hdeleted, Hdel|].
      intros document Hin. destruct (Hdocs _ Hin) as [Hold|[Hnew ?]].
      * destruct Hd as [Hd|(added & Hid & Hd)]; rewrite Hd in Hold; [by left|].
        apply elem_of_app in Hold as [Hold | ->%list_elem_of_singleton]; [by left|].
        right. rewrite Hid. split; [|done]. apply elem_of_cons. by left.
      * right. split; [|done]. apply elem_of_cons. by right.
Qed.

(** X17. Before [startWatchingContentUpdates] has stored a registry,
    [onFilesChange] resolves to [{}].  After that, when it returns, the
    schema is reported unchanged; the deleted document ids are exactly the
    updated files under the content directory that no longer exist, and
    every document has the path of such a file that exists as [id]; the
    deleted asset ids and the assets are, in order, the updated files under
    the assets directory that do not, respectively do, exist. *)
Theorem onFilesChange_reports `{Host} `{Directory} fuel this updatedFiles :
  (cs_getModelMap this = None →
   onFilesChange fuel this updatedFiles = Ok (mkFilesChange None None, []))
  ∧ (∀ modelMap change warnings,
       cs_getModelMap this = Some modelMap →
       onFilesChange fuel this updatedFiles = Ok (change, warnings) →
       schemaChanged change = Some false
       ∧ ∃ event,
           contentChangeEvent change = Some event
           ∧ deletedDocumentIds event
             = List.filter
                 (λ file, startsWith (Some (contentDir (cs_source this))) file
                          && negb (pathExists (path_join (rootDir (cs_source this)) file)))
                 updatedFiles
           ∧ (∀ document, document ∈ event_documents event →
                doc_id document ∈ updatedFiles
                ∧ startsWith (Some (contentDir (cs_source this))) (doc_id document) = true
                ∧ pathExists (path_join (rootDir (cs_source this)) (doc_id document))
                  = true)
           ∧ deletedAssetIds event
             = List.filter
                 (λ file, startsWith (assets_directory (cs_assets this)) file
                          && negb (pathExists (path_join (rootDir (cs_source this)) file)))
                 updatedFiles
           ∧ event_assets event
             = map (λ file,
                      convertAsset file (path_join (rootDir (cs_source this)) file)
                                   (publicPath (cs_assets this)))
                   (List.filter
                      (λ file, startsWith (assets_directory (cs_assets this)) file
                               && pathExists (path_join (rootDir (cs_source this)) file))
                      updatedFiles)).
Proof.
  split.
  - intros Hnone. unfold onFilesChange. by rewrite Hnone.
  - intros modelMap change warnings Hsome. unfold onFilesChange. rewrite Hsome.
    intros Hchange. apply bind_Ok in Hchange as (changed & Hdocs & Hchange).
    rewrite changedAsset_loop in Hchange. simpl in Hchange. injection Hchange as <- <-.
    simpl. split; [done|]. eexists. split; [done|]. simpl.
    destruct (changedDocument_loop _ _ _ _ _ _ Hdocs) as [Hdeleted Hids].
    split_and!.
    + rewrite Hdeleted. simpl. apply filter_filter_andb.
    + intros document Hin. destruct (Hids _ Hin) as [Hold|[Hfile Hexists]].
      * by apply elem_of_nil in Hold.
      * apply list_elem_of_In, filter_In in Hfile as [Hfile Hprefix].
        split_and!; [by apply list_elem_of_In | done | done].
    + apply filter_filter_andb.
    + by rewrite filter_filter_andb.
Qed.

Lemma onFilesChange_reports_witness :
  ∃ change warnings event,
    @onFilesChange example_host example_directory 3
      (startWatchingContentUpdates example_source example_models)
      ["content/x.json"; "content/gone.json"; "public/logo.png"; "README.md"]
    = Ok (change, warnings)
    ∧ contentChangeEvent change = Some event
    ∧ deletedDocumentIds event = ["content/gone.json"]
    ∧ doc_id <$> event_documents event = ["content/x.json"]
    ∧ asset_id <$> event_assets event = ["public/logo.png"].
Proof.
  destruct (@onFilesChange example_host example_directory 3
              (startWatchingContentUpdates example_source example_models)
              ["content/x.json"; "content/gone.json"; "public/logo.png"; "README.md"])
    as [[change warnings]| | |] eqn:Hchange; [|by vm_compute in Hchange..].
  destruct (proj2 (@onFilesChange_reports example_host example_directory 3
                     (startWatchingContentUpdates example_source example_models)
                     ["content/x.json"; "content/gone.json"; "public/logo.png";
                      "README.md"])
              example_models change warnings eq_refl Hchange)
    as (_ & event & Hevent & Hdeleted & _ & _ & Hassets).
  exists change, warnings, event. split_and!; [done | done | | |].
  - rewrite Hdeleted. by vm_compute.
  - vm_compute in Hchange. injection Hchange as <- _. simpl in Hevent.
    by injection Hevent as <-.
  - rewrite Hassets. by vm_compute.
Defined.

(** X18. Where the record left by the operations converts to [null] --
    its [type] names no model of the registry and no member of
    [Object.prototype] -- [updateDocument] saves it and then returns the
    input document as it was given: the document returned does not show
    the update. *)
Theorem updateDocument_returns_input `{Host} fuel this document operations modelMap
    data data' type fields key :
  getFileData (path_join (rootDir this) (doc_id document)) = Ok data →
  for_of (applyUpdateOperation modelMap) operations data = Ok data' →
  saveFileData (path_join (rootDir this) (doc_id document)) data' = Ok tt →
  destructure data' = Ok (type, fields) →
  toPropertyKey type = Ok key →
  modelMap !! key = None →
  key ∉ Object_prototype_names →
  updateDocument fuel this document operations modelMap = Ok document.
Proof.
  intros Hread Hops Hsave Hrecord Hkey Hown Hname. unfold updateDocument.
  rewrite Hread. cbn [mbind result_bind]. rewrite Hops. cbn [mbind result_bind].
  rewrite Hsave. cbn [mbind result_bind].
  unfold convertDocument, registry_get. rewrite Hrecord. simpl. rewrite Hkey. simpl.
  by rewrite (proj2 (registered_None modelMap key)).
Qed.

Lemma updateDocument_returns_input_witness :
  @updateDocument untyped_host 3 (mkSource "/site" "content") example_document
    [OpSet (DFValue "string" (RString "Hello")) ["title"] (string_field "title")]
    example_models
  = Ok example_document.
Proof.
  apply (@updateDocument_returns_input untyped_host 3 (mkSource "/site" "content")
           example_document
           [OpSet (DFValue "string" (RString "Hello")) ["title"] (string_field "title")]
           example_models
           (RObject [("title", RString "Hi")])
           (RObject [("title", RString "Hello")])
           RUndefined (RObject [("title", RString "Hello")]) "undefined");
    try reflexivity.
  apply (bool_decide_unpack _). by vm_compute.
Defined.
